(** * Shoppable-vision: playback / capture / scan orchestrator

    A shallow embedding of the video player page ([VideoPlayer], with its
    [extractYoutubeId], [captureFrame] and [scanProducts]) and of the
    [scan-products] edge function, followed by the properties of the
    specification that were settled against them.

    JavaScript strings are sequences of UTF-16 code units, JSON values are an
    inductive type, the Numbers of the overlay layout and of the time display
    are doubles, React state is a record that the event handlers transform, and everything the page reads from its environment (the DOM,
    [Math.random], [Date.now], the reply of the edge function) is an explicit
    input of the handler that reads it. *)

From Stdlib Require Import Ascii String DecimalString DecimalN.
From Stdlib Require Import List NArith ZArith QArith Qabs Qround Bool Lia Lqa Arith.
Import ListNotations.
Local Close Scope Q_scope.
Local Open Scope list_scope.

Set Implicit Arguments.

(* ================================================================== *)
(** ** JavaScript strings *)

Module JSString.

(** A string is its sequence of UTF-16 code units (each below 65536). *)
Definition code_unit := N.
Definition jsstring := list code_unit.

(** An ASCII literal as a JavaScript string. *)
Definition js (s : string) : jsstring :=
  map N_of_ascii (list_ascii_of_string s).

(** The same, with every apostrophe of the literal standing for a double
    quote (code unit 34), so that JSON text can be written inline. *)
Definition jsq (s : string) : jsstring :=
  map (fun c => if N.eqb c 39 then 34%N else c) (js s).

Definition in_range (lo hi c : N) : bool := (N.leb lo c && N.leb c hi)%bool.

Fixpoint jseqb (a b : jsstring) : bool :=
  match a, b with
  | [], [] => true
  | x :: a', y :: b' => (N.eqb x y && jseqb a' b')%bool
  | _, _ => false
  end.

(** [strip_prefix p s] is [Some r] when [s = p ++ r]. *)
Fixpoint strip_prefix (p s : jsstring) : option jsstring :=
  match p with
  | [] => Some s
  | a :: p' =>
      match s with
      | b :: s' => if N.eqb a b then strip_prefix p' s' else None
      | [] => None
      end
  end.

(** [String.prototype.startsWith]. *)
Definition startsWith (s p : jsstring) : bool :=
  match strip_prefix p s with Some _ => true | None => false end.

(** WhiteSpace and LineTerminator code points, as [trim] removes them. *)
Definition is_js_whitespace (c : N) : bool :=
  (in_range 9 13 c || N.eqb c 32 || N.eqb c 160 || N.eqb c 5760
   || in_range 8192 8202 c || N.eqb c 8232 || N.eqb c 8233
   || N.eqb c 8239 || N.eqb c 8287 || N.eqb c 12288 || N.eqb c 65279)%bool.

Fixpoint trimStart (s : jsstring) : jsstring :=
  match s with
  | c :: r => if is_js_whitespace c then trimStart r else s
  | [] => []
  end.

Definition trimEnd (s : jsstring) : jsstring := rev (trimStart (rev s)).

(** [String.prototype.trim]. *)
Definition trim (s : jsstring) : jsstring := trimEnd (trimStart s).

(** Decimal digits of a non-negative integer, as [Number::toString] prints
    an integer below 10^21. *)
Definition decimal (n : N) : jsstring :=
  js (NilEmpty.string_of_uint (N.to_uint n)).

(** *** encodeURIComponent *)

(** The characters [encodeURIComponent] leaves alone:
    letters, digits and [- _ . ! ~ * ' ( )]. *)
Definition uri_unreserved (c : N) : bool :=
  (in_range 65 90 c || in_range 97 122 c || in_range 48 57 c
   || N.eqb c 45 || N.eqb c 95 || N.eqb c 46 || N.eqb c 33 || N.eqb c 126
   || N.eqb c 42 || N.eqb c 39 || N.eqb c 40 || N.eqb c 41)%bool.

Definition hex_digit (n : N) : N :=
  if N.ltb n 10 then (48 + n)%N else (55 + n)%N.

Definition percent (b : N) : jsstring :=
  [37%N; hex_digit (b / 16); hex_digit (b mod 16)].

Definition utf8 (cp : N) : list N :=
  (if cp <? 128 then [cp]
   else if cp <? 2048 then [192 + cp / 64; 128 + cp mod 64]
   else if cp <? 65536 then
     [224 + cp / 4096; 128 + (cp / 64) mod 64; 128 + cp mod 64]
   else
     [240 + cp / 262144; 128 + (cp / 4096) mod 64;
      128 + (cp / 64) mod 64; 128 + cp mod 64])%N.

Definition percent_utf8 (cp : N) : jsstring := flat_map percent (utf8 cp).

Definition is_lead_surrogate (c : N) : bool := in_range 55296 56319 c.
Definition is_trail_surrogate (c : N) : bool := in_range 56320 57343 c.

(** [encodeURIComponent s]; [None] is the URIError thrown on a lone
    surrogate. *)
Fixpoint encodeURIComponent (s : jsstring) : option jsstring :=
  match s with
  | [] => Some []
  | c :: r =>
      if uri_unreserved c then option_map (cons c) (encodeURIComponent r)
      else if is_trail_surrogate c then None
      else if is_lead_surrogate c then
        match r with
        | d :: r' =>
            if is_trail_surrogate d then
              option_map
                (app (percent_utf8
                        ((c - 55296) * 1024 + (d - 56320) + 65536)%N))
                (encodeURIComponent r')
            else None
        | [] => None
        end
      else option_map (app (percent_utf8 c)) (encodeURIComponent r)
  end.

End JSString.
Import JSString.

(* ================================================================== *)
(** ** Regular expressions

    The patterns of the source are built from the constructors below, with
    at most one capture group each.  The matcher is the backtracking one of
    the language: a pattern is tried at each start index from the left, the
    first alternative that lets the whole pattern succeed wins, and [*] and
    [?] are greedy, giving characters back only when what follows fails. *)

Module Regex.

Inductive re :=
| Lit (l : jsstring)              (* a literal run of characters *)
| Rep (p : N -> bool) (n : nat)   (* [[p]{n}] *)
| Star (p : N -> bool)            (* [[p]*] *)
| Opt (a : re)                    (* [a?] *)
| Seq (a b : re)
| Alt (a b : re)                  (* [a|b] *)
| Group (a : re)                  (* [(a)] *)
| Bol                             (* [^] *)
| Eol.                            (* [$] *)

(** A pattern written as the sequence of its parts. *)
Fixpoint cat (rs : list re) : re :=
  match rs with
  | [] => Lit []
  | [r] => r
  | r :: rs' => Seq r (cat rs')
  end.

(** [[p]+] *)
Definition Plus (p : N -> bool) : re := Seq (Rep p 1) (Star p).

Definition is_line_terminator (c : N) : bool :=
  (N.eqb c 10 || N.eqb c 13 || N.eqb c 8232 || N.eqb c 8233)%bool.

(** [.] matches any code unit but a line terminator. *)
Definition dot (c : N) : bool := negb (is_line_terminator c).

Fixpoint take_class (p : N -> bool) (n : nat) (s : jsstring)
  : option jsstring :=
  match n with
  | O => Some s
  | S n' =>
      match s with
      | c :: s' => if p c then take_class p n' s' else None
      | [] => None
      end
  end.

(** What a match yields: the text of the capture group, if it took part,
    and the input left after the match. *)
Definition answer := option (option jsstring * jsstring).

(** [run r pos cap s k] matches [r] at the head of [s], which starts at
    index [pos] of the subject, and hands over to the continuation [k]
    for the rest of the pattern; [None] makes the caller backtrack. *)
Fixpoint run (r : re) (pos : nat) (cap : option jsstring) (s : jsstring)
         (k : nat -> option jsstring -> jsstring -> answer) : answer :=
  match r with
  | Lit l =>
      match strip_prefix l s with
      | Some s' => k (pos + length l) cap s'
      | None => None
      end
  | Rep p n =>
      match take_class p n s with
      | Some s' => k (pos + n) cap s'
      | None => None
      end
  | Star p =>
      (fix star (pos : nat) (s : jsstring) {struct s} : answer :=
         match s with
         | c :: s' =>
             if p c then
               match star (S pos) s' with
               | Some m => Some m
               | None => k pos cap s
               end
             else k pos cap s
         | [] => k pos cap []
         end) pos s
  | Opt a =>
      match run a pos cap s k with
      | Some m => Some m
      | None => k pos cap s
      end
  | Seq a b => run a pos cap s (fun pos' cap' s' => run b pos' cap' s' k)
  | Alt a b =>
      match run a pos cap s k with
      | Some m => Some m
      | None => run b pos cap s k
      end
  | Group a =>
      run a pos cap s
          (fun pos' _ s' => k pos' (Some (firstn (pos' - pos) s)) s')
  | Bol => match pos with O => k pos cap s | S _ => None end
  | Eol => match s with [] => k pos cap s | _ :: _ => None end
  end.

Definition match_at (r : re) (pos : nat) (s : jsstring) : answer :=
  run r pos None s (fun _ cap rest => Some (cap, rest)).

(** The leftmost match: start index, capture group, remainder. *)
Fixpoint search_from (r : re) (pos : nat) (s : jsstring)
  : option (nat * option jsstring * jsstring) :=
  match match_at r pos s with
  | Some (cap, rest) => Some (pos, cap, rest)
  | None =>
      match s with
      | [] => None
      | _ :: s' => search_from r (S pos) s'
      end
  end.

(** [s.match(r)] for a pattern without the [g] flag: [None] is [null],
    otherwise the capture group ([match[1]]). *)
Definition str_match (s : jsstring) (r : re) : option (option jsstring) :=
  match search_from r 0 s with
  | Some (_, cap, _) => Some cap
  | None => None
  end.

(** [s.replace(r, empty)]: the first match is cut out. *)
Definition replace_empty (s : jsstring) (r : re) : jsstring :=
  match search_from r 0 s with
  | Some (i, _, rest) => firstn i s ++ rest
  | None => s
  end.

End Regex.
Import Regex.

(* ================================================================== *)
(** ** Identifier extraction ([extractYoutubeId]) *)

(** [[a-zA-Z0-9_-]] *)
Definition id_char (c : N) : bool :=
  (in_range 97 122 c || in_range 65 90 c || in_range 48 57 c
   || N.eqb c 95 || N.eqb c 45)%bool.

Definition patterns : list re :=
  [ cat [Lit (js "youtube.com/watch?v="); Group (Rep id_char 11)];
    cat [Lit (js "youtube.com/watch?"); Star dot; Lit (js "v=");
         Group (Rep id_char 11)];
    cat [Lit (js "youtu.be/"); Group (Rep id_char 11)];
    cat [Lit (js "youtube.com/embed/"); Group (Rep id_char 11)];
    cat [Lit (js "youtube.com/v/"); Group (Rep id_char 11)];
    cat [Lit (js "youtube.com/shorts/"); Group (Rep id_char 11)];
    cat [Lit (js "youtube.com/live/"); Group (Rep id_char 11)] ].

(** The loop over [patterns]: the first pattern that matches with a
    non-empty group decides. *)
Fixpoint first_capture (ps : list re) (url : jsstring) : option jsstring :=
  match ps with
  | [] => None
  | p :: ps' =>
      match str_match url p with
      | Some (Some (c :: g)) => Some (c :: g)
      | _ => first_capture ps' url
      end
  end.

Definition extractYoutubeId (url : jsstring) : option jsstring :=
  first_capture patterns url.

(** The earlier version of the page finds the identifier with one pattern
    ([getYoutubeEmbedUrl]):
    [youtube\.com\/(?:[^\/]+\/.+\/|(?:v|e(?:mbed)?)\/|.*[?&]v=)|youtu\.be\/]
    followed by a group of eleven characters other than the double quote,
    [&], [?], [/] and white space. *)
Definition not_slash (c : N) : bool := negb (N.eqb c 47).
Definition query_mark (c : N) : bool := (N.eqb c 63 || N.eqb c 38)%bool.
Definition embed_id_char (c : N) : bool :=
  negb (N.eqb c 34 || N.eqb c 38 || N.eqb c 63 || N.eqb c 47
        || is_js_whitespace c)%bool.

Definition embed_pattern : re :=
  cat [ Alt (cat [ Lit (js "youtube.com/");
                   Alt (cat [Plus not_slash; Lit (js "/"); Plus dot;
                             Lit (js "/")])
                  (Alt (cat [Alt (Lit (js "v"))
                                 (cat [Lit (js "e"); Opt (Lit (js "mbed"))]);
                             Lit (js "/")])
                       (cat [Star dot; Rep query_mark 1; Lit (js "v=")])) ])
            (Lit (js "youtu.be/"));
        Group (Rep embed_id_char 11) ].

(** The identifier [getYoutubeEmbedUrl] puts into the embed URL ([match[1]]);
    [None] when it returns the URL unchanged. *)
Definition embed_url_id (url : jsstring) : option jsstring :=
  match str_match url embed_pattern with
  | Some cap => cap
  | None => None
  end.

(* ================================================================== *)
(** ** JSON values and the built-ins applied to them *)

Module Json.

(** A Number is carried as the exact rational its literal denotes; the
    rounding to a double is applied where the code observes it (the zero
    test of [ToBoolean]).  [NaN] never comes out of [JSON.parse]; it is
    there because a confidence is typed as a number. *)
Inductive number := NaN | Num (q : Q).

#[warnings="-register-all"] Inductive json :=
| JNull
| JBool (b : bool)
| JNum (n : number)
| JStr (s : jsstring)
| JArr (xs : list json)
| JObj (kvs : list (jsstring * json)).

(** A rational rounds to zero exactly when its magnitude is at most half
    the least positive double, 2^-1075 (the tie goes to the even zero). *)
Definition rounds_to_zero (q : Q) : bool :=
  Qle_bool (Qabs q) (1 # (2 ^ 1075)).

(** [ToBoolean]. *)
Definition truthy (v : json) : bool :=
  match v with
  | JNull => false
  | JBool b => b
  | JNum NaN => false
  | JNum (Num q) => negb (rounds_to_zero q)
  | JStr [] => false
  | JStr (_ :: _) => true
  | JArr _ | JObj _ => true
  end.

(** The last binding of a key: a later duplicate member of a JSON object
    replaces an earlier one. *)
Fixpoint lookup (k : jsstring) (kvs : list (jsstring * json)) : option json :=
  match kvs with
  | [] => None
  | (k', v) :: rest =>
      match lookup k rest with
      | Some w => Some w
      | None => if jseqb k k' then Some v else None
      end
  end.

(** [v[k]] for a value [v] other than [null] and a key [k] that no
    built-in prototype defines (the source reads [choices], [0],
    [message], [content], [imageData], [name], [category] and
    [confidence]); [None] is [undefined]. *)
Definition get (v : json) (k : jsstring) : option json :=
  match v with
  | JObj kvs => lookup k kvs
  | JArr xs => if jseqb k (js "0") then nth_error xs 0 else None
  | JStr (c :: _) => if jseqb k (js "0") then Some (JStr [c]) else None
  | _ => None
  end.

(** ['k' in v] for a value that passed [typeof v === 'object'] and
    [v !== null], with the same proviso on [k]. *)
Definition has (v : json) (k : jsstring) : bool :=
  match get v k with Some _ => true | None => false end.

(** [v?.[k]] once [v] itself is known: [undefined] and [null] end the
    chain with [undefined]. *)
Definition opt_get (v : option json) (k : jsstring) : option json :=
  match v with
  | None | Some JNull => None
  | Some w => get w k
  end.

Section ToString.

(** [Number::toString] on a finite number is the engine's shortest
    round-trip printer; it stays a parameter. *)
Variable Number_toString : Q -> jsstring.

Fixpoint join_comma (parts : list jsstring) : jsstring :=
  match parts with
  | [] => []
  | [x] => x
  | x :: rest => x ++ 44%N :: join_comma rest
  end.

Fixpoint sequence (xs : list (option jsstring)) : option (list jsstring) :=
  match xs with
  | [] => Some []
  | Some x :: rest => option_map (cons x) (sequence rest)
  | None :: _ => None
  end.

(** [ToString]; [None] is the TypeError of an object whose own
    [toString] member hides the inherited method.  An array is joined
    with commas, a [null] element printing as the empty string. *)
Fixpoint ToString (v : json) : option jsstring :=
  match v with
  | JNull => Some (js "null")
  | JBool true => Some (js "true")
  | JBool false => Some (js "false")
  | JNum NaN => Some (js "NaN")
  | JNum (Num q) => Some (Number_toString q)
  | JStr s => Some s
  | JArr xs =>
      option_map join_comma
        (sequence
           (map (fun x => match x with
                          | JNull => Some []
                          | _ => ToString x
                          end) xs))
  | JObj kvs =>
      match lookup (js "toString") kvs with
      | Some _ => None
      | None => Some (js "[object Object]")
      end
  end.

End ToString.

(** *** JSON.parse *)

Definition is_json_ws (c : N) : bool :=
  (N.eqb c 32 || N.eqb c 9 || N.eqb c 10 || N.eqb c 13)%bool.

Fixpoint skip_ws (s : jsstring) : jsstring :=
  match s with
  | c :: r => if is_json_ws c then skip_ws r else s
  | [] => []
  end.

Definition is_digit (c : N) : bool := in_range 48 57 c.

Definition hex_value (c : N) : option N :=
  if in_range 48 57 c then Some (c - 48)%N
  else if in_range 65 70 c then Some (c - 55)%N
  else if in_range 97 102 c then Some (c - 87)%N
  else None.

Definition hex4 (a b c d : N) : option N :=
  match hex_value a, hex_value b, hex_value c, hex_value d with
  | Some x, Some y, Some z, Some w =>
      Some (((x * 16 + y) * 16 + z) * 16 + w)%N
  | _, _, _, _ => None
  end.

(** The characters of a string literal after its opening quote, up to and
    including the closing quote. *)
Fixpoint parse_chars (s : jsstring) : option (jsstring * jsstring) :=
  match s with
  | [] => None
  | c :: r =>
      if N.eqb c 34 then Some ([], r)
      else if N.ltb c 32 then None
      else if N.eqb c 92 then
        match r with
        | e :: r1 =>
            let simple (u : N) :=
              match parse_chars r1 with
              | Some (t, rest) => Some (u :: t, rest)
              | None => None
              end in
            if N.eqb e 34 then simple 34%N
            else if N.eqb e 92 then simple 92%N
            else if N.eqb e 47 then simple 47%N
            else if N.eqb e 98 then simple 8%N
            else if N.eqb e 102 then simple 12%N
            else if N.eqb e 110 then simple 10%N
            else if N.eqb e 114 then simple 13%N
            else if N.eqb e 116 then simple 9%N
            else if N.eqb e 117 then
              match r1 with
              | a :: b :: x :: d :: r2 =>
                  match hex4 a b x d with
                  | Some u =>
                      match parse_chars r2 with
                      | Some (t, rest) => Some (u :: t, rest)
                      | None => None
                      end
                  | None => None
                  end
              | _ => None
              end
            else None
        | [] => None
        end
      else
        match parse_chars r with
        | Some (t, rest) => Some (c :: t, rest)
        | None => None
        end
  end.

(** A run of digits: its value, its length and what follows. *)
Fixpoint digits (acc : N) (len : nat) (s : jsstring) : N * nat * jsstring :=
  match s with
  | c :: r =>
      if is_digit c then digits (acc * 10 + (c - 48))%N (S len) r
      else (acc, len, s)
  | [] => (acc, len, [])
  end.

(** [m * 10^e] as a rational. *)
Definition scale10 (m : Z) (e : Z) : Q :=
  match e with
  | Z0 => m # 1
  | Zpos p => (m * 10 ^ Zpos p) # 1
  | Zneg p => m # (10 ^ p)
  end.

(** A number literal: an optional minus sign, then [0] or a run of digits
    that does not start with [0], then optionally a point with at least
    one digit, then optionally [e] or [E], a sign and at least one
    digit. *)
Definition parse_number (s : jsstring) : option (Q * jsstring) :=
  let '(neg, s1) :=
    match s with
    | c :: r => if N.eqb c 45 then (true, r) else (false, s)
    | [] => (false, s)
    end in
  let int_part :=
    match s1 with
    | c :: r =>
        if N.eqb c 48 then Some (0%N, r)
        else if is_digit c then
          let '(v, _, rest) := digits 0 0 s1 in Some (v, rest)
        else None
    | [] => None
    end in
  match int_part with
  | None => None
  | Some (ip, s2) =>
      let frac :=
        match s2 with
        | c :: r =>
            if N.eqb c 46 then
              match digits ip 0 r with
              | (_, O, _) => None
              | (v, len, rest) => Some (v, len, rest)
              end
            else Some (ip, O, s2)
        | [] => Some (ip, O, s2)
        end in
      match frac with
      | None => None
      | Some (mant, flen, s3) =>
          let expo :=
            match s3 with
            | c :: r =>
                if (N.eqb c 101 || N.eqb c 69)%bool then
                  let '(eneg, r1) :=
                    match r with
                    | d :: r' =>
                        if N.eqb d 45 then (true, r')
                        else if N.eqb d 43 then (false, r')
                        else (false, r)
                    | [] => (false, r)
                    end in
                  match digits 0 0 r1 with
                  | (_, O, _) => None
                  | (v, _, rest) =>
                      Some ((if eneg then - Z.of_N v else Z.of_N v)%Z, rest)
                  end
                else Some (0%Z, s3)
            | [] => Some (0%Z, s3)
            end in
          match expo with
          | None => None
          | Some (e, s4) =>
              let m := (if neg then - Z.of_N mant else Z.of_N mant)%Z in
              Some (scale10 m (e - Z.of_nat flen), s4)
          end
      end
  end.

(** Values, array elements and object members; [fuel] bounds the depth of
    the calls, and every second call consumes a character. *)
Fixpoint parse_value (fuel : nat) (s : jsstring) : option (json * jsstring) :=
  match fuel with
  | O => None
  | S f =>
      match skip_ws s with
      | [] => None
      | c :: r =>
          if N.eqb c 34 then
            match parse_chars r with
            | Some (t, rest) => Some (JStr t, rest)
            | None => None
            end
          else if N.eqb c 91 then
            match skip_ws r with
            | d :: r' =>
                if N.eqb d 93 then Some (JArr [], r')
                else
                  match parse_elements f r with
                  | Some (xs, rest) => Some (JArr xs, rest)
                  | None => None
                  end
            | [] => None
            end
          else if N.eqb c 123 then
            match skip_ws r with
            | d :: r' =>
                if N.eqb d 125 then Some (JObj [], r')
                else
                  match parse_members f r with
                  | Some (kvs, rest) => Some (JObj kvs, rest)
                  | None => None
                  end
            | [] => None
            end
          else
            match strip_prefix (js "true") (c :: r) with
            | Some rest => Some (JBool true, rest)
            | None =>
            match strip_prefix (js "false") (c :: r) with
            | Some rest => Some (JBool false, rest)
            | None =>
            match strip_prefix (js "null") (c :: r) with
            | Some rest => Some (JNull, rest)
            | None =>
            match parse_number (c :: r) with
            | Some (q, rest) => Some (JNum (Num q), rest)
            | None => None
            end end end end
      end
  end

with parse_elements (fuel : nat) (s : jsstring)
     : option (list json * jsstring) :=
  match fuel with
  | O => None
  | S f =>
      match parse_value f s with
      | Some (v, r) =>
          match skip_ws r with
          | c :: r' =>
              if N.eqb c 44 then
                match parse_elements f r' with
                | Some (vs, rest) => Some (v :: vs, rest)
                | None => None
                end
              else if N.eqb c 93 then Some ([v], r')
              else None
          | [] => None
          end
      | None => None
      end
  end

with parse_members (fuel : nat) (s : jsstring)
     : option (list (jsstring * json) * jsstring) :=
  match fuel with
  | O => None
  | S f =>
      match skip_ws s with
      | q :: r0 =>
          if N.eqb q 34 then
            match parse_chars r0 with
            | Some (k, r1) =>
                match skip_ws r1 with
                | c :: r2 =>
                    if N.eqb c 58 then
                      match parse_value f r2 with
                      | Some (v, r3) =>
                          match skip_ws r3 with
                          | d :: r4 =>
                              if N.eqb d 44 then
                                match parse_members f r4 with
                                | Some (kvs, rest) => Some ((k, v) :: kvs, rest)
                                | None => None
                                end
                              else if N.eqb d 125 then Some ([(k, v)], r4)
                              else None
                          | [] => None
                          end
                      | None => None
                      end
                    else None
                | [] => None
                end
            | None => None
            end
          else None
      | [] => None
      end
  end.

(** [JSON.parse]; [None] is the SyntaxError. *)
Definition JSON_parse (s : jsstring) : option json :=
  match parse_value (2 * length s + 2) s with
  | Some (v, rest) =>
      match skip_ws rest with
      | [] => Some v
      | _ :: _ => None
      end
  | None => None
  end.

End Json.
Import Json.

(* ================================================================== *)
(** ** The edge function ([scan-products/index.ts]) *)

Module ScanProducts.

(** What the [map] callback builds.  [name] and [category] are copied from
    the entry as they are ([None] is [undefined], which an entry that
    passed the filter never has). *)
Record Product := {
  name : option json;
  category : option json;
  confidence : json;
  searchUrl : jsstring
}.

(** The literal [0.8]. *)
Definition default_confidence : json := JNum (Num (8 # 10)).

Definition search_prefix : jsstring := js "https://www.amazon.com/s?k=".

Definition rate_limit_message : jsstring :=
  js "Rate limit exceeded. Please try again in a moment.".
Definition quota_message : jsstring :=
  js "AI usage limit reached. Please upgrade your plan.".
Definition generic_message (status : N) : jsstring :=
  js "AI API error: " ++ decimal status.

(** The three patterns that remove a code fence; 10 is the line feed. *)
Definition fence_json_open : re := cat [Bol; Lit (js "```json"); Opt (Lit [10%N])].
Definition fence_open : re := cat [Bol; Lit (js "```"); Opt (Lit [10%N])].
Definition fence_close : re := cat [Opt (Lit [10%N]); Lit (js "```"); Eol].

Definition strip_fences (cleanContent : jsstring) : jsstring :=
  if startsWith cleanContent (js "```json") then
    replace_empty (replace_empty cleanContent fence_json_open) fence_close
  else if startsWith cleanContent (js "```") then
    replace_empty (replace_empty cleanContent fence_open) fence_close
  else cleanContent.

(** The filter:
    [typeof p === 'object' && p !== null && 'name' in p && 'category' in p]. *)
Definition is_candidate (p : json) : bool :=
  match p with
  | JObj _ | JArr _ => (has p (js "name") && has p (js "category"))%bool
  | _ => false
  end.

Section Handler.

Variable Number_toString : Q -> jsstring.

(** [encodeURIComponent(v)] on a value that may be [undefined]; [None]
    is an exception. *)
Definition encode_value (v : option json) : option jsstring :=
  match v with
  | None => encodeURIComponent (js "undefined")
  | Some w =>
      match ToString Number_toString w with
      | Some t => encodeURIComponent t
      | None => None
      end
  end.

(** [p.confidence || 0.8] *)
Definition confidence_or_default (p : json) : json :=
  match get p (js "confidence") with
  | Some v => if truthy v then v else default_confidence
  | None => default_confidence
  end.

(** The [map] callback; [None] when it throws. *)
Definition to_product (p : json) : option Product :=
  match encode_value (get p (js "name")) with
  | Some e =>
      Some {| name := get p (js "name");
              category := get p (js "category");
              confidence := confidence_or_default p;
              searchUrl := search_prefix ++ e |}
  | None => None
  end.

(** [Array.prototype.map] with a callback that may throw. *)
Fixpoint map_products (ps : list json) : option (list Product) :=
  match ps with
  | [] => Some []
  | p :: rest =>
      match to_product p with
      | Some x =>
          match map_products rest with
          | Some xs => Some (x :: xs)
          | None => None
          end
      | None => None
      end
  end.

(** The array branch, inside the [try]: filter, then map; an exception of
    the callback is caught and leaves [products] empty. *)
Definition validate (parsed : list json) : list Product :=
  match map_products (filter is_candidate parsed) with
  | Some products => products
  | None => []
  end.

(** The inner [try]: every exception leaves [products] empty. *)
Definition parse_content (content : json) : list Product :=
  match content with
  | JStr c =>
      let cleanContent := strip_fences (trim c) in
      match JSON_parse cleanContent with
      | Some (JArr parsed) => validate parsed
      | Some _ => []
      | None => []
      end
  | _ => []   (* [content.trim] is not a function *)
  end.

(** [aiResponse.choices?.[0]?.message?.content || "[]"] for an
    [aiResponse] other than [null]. *)
Definition content_of (aiResponse : json) : json :=
  match opt_get (opt_get (opt_get (get aiResponse (js "choices"))
                                  (js "0"))
                         (js "message"))
                (js "content") with
  | Some v => if truthy v then v else JStr (js "[]")
  | None => JStr (js "[]")
  end.

(** *** The request handler *)

(** Errors the engine raises, whose message text is its own. *)
Inductive EngineError :=
| RequestBodyError      (* [req.json()] rejects or yields [null] *)
| FetchError            (* [fetch] rejects *)
| ResponseBodyError     (* [response.json()] rejects *)
| NullResponseError.    (* [aiResponse] is [null] *)

Inductive Message :=
| Text (m : jsstring)
| EngineText (e : EngineError).

Inductive Body :=
| NoBody
| ErrorBody (error : Message)
| ProductsBody (products : list Product).

Record Response := { status : N; body : Body }.

(** What the gateway does with the one request sent to it: the [fetch]
    rejects, or it resolves with a status and a body that can be read
    ([json_body] is [None] when the body is not JSON). *)
Inductive Upstream :=
| Rejected
| Replied (status : N) (json_body : option json).

Record Request := {
  is_options : bool;              (* [req.method === "OPTIONS"] *)
  request_json : option json      (* [await req.json()], if it parses *)
}.

(** [response.ok] *)
Definition ok (status : N) : bool := in_range 200 299 status.

Definition key_present (k : option jsstring) : bool :=
  match k with Some (_ :: _) => true | _ => false end.

(** What the handler answers once the gateway has been called: the status
    mapping, then the defensive parse. *)
Definition after_fetch (upstream : Upstream) : Response :=
  match upstream with
  | Rejected => {| status := 500; body := ErrorBody (EngineText FetchError) |}
  | Replied st json_body =>
      if negb (ok st) then
        if N.eqb st 429 then
          {| status := 429; body := ErrorBody (Text rate_limit_message) |}
        else if N.eqb st 402 then
          {| status := 402; body := ErrorBody (Text quota_message) |}
        else
          (* [throw new Error(...)], caught by the outer [catch] *)
          {| status := 500; body := ErrorBody (Text (generic_message st)) |}
      else
        match json_body with
        | None =>
            {| status := 500; body := ErrorBody (EngineText ResponseBodyError) |}
        | Some JNull =>
            {| status := 500; body := ErrorBody (EngineText NullResponseError) |}
        | Some aiResponse =>
            {| status := 200;
               body := ProductsBody (parse_content (content_of aiResponse)) |}
        end
  end.

(** [imageData] of the request body is truthy. *)
Definition has_image (b : json) : bool :=
  match get b (js "imageData") with
  | Some v => truthy v
  | None => false
  end.

(** The handler: its response and the number of requests it sent to the
    gateway. *)
Definition serve (req : Request) (LOVABLE_API_KEY : option jsstring)
           (upstream : Upstream) : Response * nat :=
  if is_options req then ({| status := 200; body := NoBody |}, 0)
  else
    match request_json req with
    | None | Some JNull =>
        ({| status := 500; body := ErrorBody (EngineText RequestBodyError) |}, 0)
    | Some b =>
        if negb (has_image b)
        then ({| status := 400;
                 body := ErrorBody (Text (js "No image data provided")) |}, 0)
        else if negb (key_present LOVABLE_API_KEY)
        then ({| status := 500;
                 body := ErrorBody (Text (js "AI service not configured")) |}, 0)
        else (after_fetch upstream, 1)
    end.

End Handler.

End ScanProducts.
Import ScanProducts.

(* ================================================================== *)
(** ** Numbers ([Number], IEEE 754 binary64)

    The arithmetic of the pages is that of doubles.  A finite double is
    the rational it denotes.  An operation takes the exact rational result
    and rounds it to the nearest double, and of two doubles that are
    equally near to the one whose significand is even ([nearest], the
    Number value for a real of ECMAScript); a result of magnitude
    [2 ^ 1024] or more after rounding is an infinity.  The sign of a zero
    is not kept: the pages divide by constants only and print no zero with
    its sign, so nothing here tells the two zeros apart. *)

Module Double.

Inductive number :=
| NaN
| PosInf
| NegInf
| Finite (q : Q).

(** The integer nearest to [n / d], for [d > 0]; of two that are equally
    near, the even one. *)
Definition nearest_even (n d : Z) : Z :=
  let f := (n / d)%Z in
  match (2 * (n mod d) ?= d)%Z with
  | Lt => f
  | Gt => (f + 1)%Z
  | Eq => if Z.even f then f else (f + 1)%Z
  end.

(** Quantities are measured in units of [2 ^ -1074], the least positive
    double, so that every double is a whole number of units.  The doubles
    near [n / d] units are the multiples of [2 ^ last_place n d] units:
    a significand has 53 bits, and below [2 ^ 53] units (the subnormal
    numbers and the first normal ones) every whole number of units is a
    double. *)
Definition last_place (n d : Z) : Z :=
  Z.max 0 (Z.log2 (Z.abs n / d) - 52).

(** [n / d] units, rounded to a double. *)
Definition round_units (n d : Z) : Z :=
  (nearest_even n (d * 2 ^ last_place n d) * 2 ^ last_place n d)%Z.

Definition units (q : Q) : Z :=
  round_units (Qnum q * 2 ^ 1074) (Zpos (Qden q)).

(** The Number value for [q]. *)
Definition nearest (q : Q) : number :=
  let z := units q in
  if (2 ^ 2098 <=? Z.abs z)%Z then (if (0 <? z)%Z then PosInf else NegInf)
  else Finite (Qred (z # 2 ^ 1074)).

(** The rationals that are doubles. *)
Definition is_double (q : Q) : bool :=
  match nearest q with
  | Finite r => Qeq_bool r q
  | _ => false
  end.

Definition infinity (positive : bool) : number :=
  if positive then PosInf else NegInf.

Definition positive (q : Q) : bool := negb (Qle_bool q 0).

Definition zero (q : Q) : bool := Qeq_bool q 0.

(** [a + b] *)
Definition add (a b : number) : number :=
  match a, b with
  | NaN, _ | _, NaN => NaN
  | PosInf, NegInf | NegInf, PosInf => NaN
  | PosInf, _ | _, PosInf => PosInf
  | NegInf, _ | _, NegInf => NegInf
  | Finite p, Finite q => nearest (p + q)
  end.

(** [a * b] *)
Definition mul (a b : number) : number :=
  match a, b with
  | NaN, _ | _, NaN => NaN
  | Finite p, Finite q => nearest (p * q)
  | Finite p, PosInf | PosInf, Finite p =>
      if zero p then NaN else infinity (positive p)
  | Finite p, NegInf | NegInf, Finite p =>
      if zero p then NaN else infinity (negb (positive p))
  | PosInf, PosInf | NegInf, NegInf => PosInf
  | PosInf, NegInf | NegInf, PosInf => NegInf
  end.

(** [a / b]; a zero divisor counts as the positive zero. *)
Definition div (a b : number) : number :=
  match a, b with
  | NaN, _ | _, NaN => NaN
  | Finite p, Finite q =>
      if zero q then (if zero p then NaN else infinity (positive p))
      else nearest (p / q)
  | Finite _, (PosInf | NegInf) => Finite 0
  | PosInf, Finite q => infinity (Qle_bool 0 q)
  | NegInf, Finite q => infinity (negb (Qle_bool 0 q))
  | (PosInf | NegInf), (PosInf | NegInf) => NaN
  end.

(** Rounding toward zero. *)
Definition truncate (q : Q) : Z :=
  if Qle_bool 0 q then Qfloor q else Qceiling q.

(** [n % d]: the dividend less the divisor times the quotient rounded
    toward zero. *)
Definition rem (n d : number) : number :=
  match n, d with
  | NaN, _ | _, NaN => NaN
  | (PosInf | NegInf), _ => NaN
  | Finite p, (PosInf | NegInf) => Finite p
  | Finite p, Finite q =>
      if zero q then NaN
      else nearest (p - q * inject_Z (truncate (p / q)))
  end.

(** [Math.floor] *)
Definition floor (a : number) : number :=
  match a with
  | Finite q => nearest (inject_Z (Qfloor q))
  | _ => a
  end.

(** The Number for an index of an array. *)
Definition of_nat (n : nat) : number := nearest (inject_Z (Z.of_nat n)).


End Double.

(* ================================================================== *)
(** ** The player page ([VideoPlayer]) *)

Module VideoPlayer.

Record VideoData := {
  id : jsstring;
  title : jsstring;
  video_url : jsstring;
  source_type : jsstring
}.

Record Position := { x : Double.number; y : Double.number }.

(** A product as the page keeps it: the fields received ([...product]),
    the synthetic [id] and the assigned [position]. *)
Record ScannedProduct := {
  received : Product;
  product_id : jsstring;
  position : Position
}.

Inductive Variant := Default | Destructive.

Record Toast := {
  toast_title : jsstring;
  description : jsstring;
  variant : Variant
}.

(** The body of one [supabase.functions.invoke("scan-products", ...)]. *)
Record Invocation := {
  imageData : jsstring;
  videoId : jsstring;
  isUrl : bool
}.

(** What [invoke] resolves to: an [error] with its [message], or [data]
    with its [products] ([None] when [data] has none). *)
Inductive InvokeResult :=
| InvokeError (message : jsstring)
| InvokeData (products : option (list Product)).

(** *** The DOM as the handlers read it *)

Record VideoElement := { videoWidth : N; videoHeight : N }.

Record Canvas := {
  context2d : bool;             (* [getContext("2d")] is not [null] *)
  rendering : option jsstring   (* [drawImage] then [toDataURL]; [None]
                                   when one of them throws *)
}.

Record Dom := {
  ytPlayerRef : bool;                 (* [ytPlayerRef.current] is set *)
  videoRef : option VideoElement;
  canvasRef : option Canvas
}.

Definition captureFrame (dom : Dom) : option jsstring :=
  match videoRef dom, canvasRef dom with
  | Some videoEl, Some canvas =>
      if negb (context2d canvas) then None
      else if (N.eqb (videoWidth videoEl) 0 || N.eqb (videoHeight videoEl) 0)%bool
      then None
      else rendering canvas
  | _, _ => None
  end.

Definition getYoutubeThumbnail (videoId : jsstring) : jsstring :=
  js "https://img.youtube.com/vi/" ++ videoId ++ js "/maxresdefault.jpg".

(** *** React state, and the effects the handlers have besides it *)

Record State := {
  route_id : jsstring;                    (* [useParams().id] *)
  video : option VideoData;
  loading : bool;
  isPlaying : bool;
  isScanning : bool;
  scannedProducts : list ScannedProduct;
  showProducts : bool;
  toasts : list Toast;                    (* newest first *)
  sent : list Invocation;                 (* every request issued, newest first *)
  in_flight : list Invocation             (* requests not yet settled *)
}.

Definition initial (route : jsstring) : State :=
  {| route_id := route; video := None; loading := true;
     isPlaying := false; isScanning := false;
     scannedProducts := []; showProducts := false;
     toasts := []; sent := []; in_flight := [] |}.

Definition set_isPlaying (b : bool) (s : State) : State :=
  {| route_id := route_id s; video := video s; loading := loading s;
     isPlaying := b; isScanning := isScanning s;
     scannedProducts := scannedProducts s; showProducts := showProducts s;
     toasts := toasts s; sent := sent s; in_flight := in_flight s |}.

Definition set_showProducts (b : bool) (s : State) : State :=
  {| route_id := route_id s; video := video s; loading := loading s;
     isPlaying := isPlaying s; isScanning := isScanning s;
     scannedProducts := scannedProducts s; showProducts := b;
     toasts := toasts s; sent := sent s; in_flight := in_flight s |}.

Definition toast (t : Toast) (s : State) : State :=
  {| route_id := route_id s; video := video s; loading := loading s;
     isPlaying := isPlaying s; isScanning := isScanning s;
     scannedProducts := scannedProducts s; showProducts := showProducts s;
     toasts := t :: toasts s; sent := sent s; in_flight := in_flight s |}.

(** [video?.source_type === "youtube"] *)
Definition is_youtube (v : option VideoData) : bool :=
  match v with
  | Some d => jseqb (source_type d) (js "youtube")
  | None => false
  end.

Definition capture_toast : Toast :=
  {| toast_title := js "Could not capture frame";
     description := js "Please try again.";
     variant := Destructive |}.

(** [scanProducts] up to its [await]: pause, take the image, and either
    give up with a toast or enter the scanning state and issue the
    request. *)
Definition scanProducts (dom : Dom) (s : State) : State :=
  let isYoutube := is_youtube (video s) in
  let paused :=
    if (isYoutube && ytPlayerRef dom)%bool then set_isPlaying false s
    else match videoRef dom with
         | Some _ => set_isPlaying false s
         | None => s
         end in
  let imageData :=
    match video s with
    | Some v =>
        if isYoutube then
          match extractYoutubeId (video_url v) with
          | Some videoId => Some (getYoutubeThumbnail videoId)
          | None => None
          end
        else captureFrame dom
    | None => captureFrame dom
    end in
  match imageData with
  | None | Some [] => toast capture_toast paused
  | Some (c :: d) =>
      let request := {| imageData := c :: d;
                        videoId := route_id s;
                        isUrl := isYoutube |} in
      {| route_id := route_id paused; video := video paused;
         loading := loading paused; isPlaying := isPlaying paused;
         isScanning := true;
         scannedProducts := [];
         showProducts := false;
         toasts := toasts paused;
         sent := request :: sent paused;
         in_flight := request :: in_flight paused |}
  end.

(** *** Overlay layout *)

(** [10 + (index % 3) * 30 + Math.random() * 10], where [draw] is what
    [Math.random()] returned. *)
Definition position_x (index : nat) (draw : Q) : Double.number :=
  Double.add
    (Double.add (Double.Finite 10)
       (Double.mul (Double.rem (Double.of_nat index) (Double.Finite 3))
                   (Double.Finite 30)))
    (Double.mul (Double.nearest draw) (Double.Finite 10)).

(** [10 + Math.floor(index / 3) * 25 + Math.random() * 10] *)
Definition position_y (index : nat) (draw : Q) : Double.number :=
  Double.add
    (Double.add (Double.Finite 10)
       (Double.mul (Double.floor (Double.div (Double.of_nat index)
                                             (Double.Finite 3)))
                   (Double.Finite 25)))
    (Double.mul (Double.nearest draw) (Double.Finite 10)).

Section Settle.

(** [now k] is what the [k]-th call of [Date.now()] returns and
    [random k] what the [k]-th call of [Math.random()] returns, counted
    from the start of the [map]. *)
Variable now : nat -> N.
Variable random : nat -> Q.

(** The [map] callback at [index]: one clock reading, then one draw for
    [x] and one for [y]. *)
Definition place (index : nat) (product : Product) : ScannedProduct :=
  {| received := product;
     product_id := decimal (now index) ++ js "-" ++ decimal (N.of_nat index);
     position := {| x := position_x index (random (2 * index));
                    y := position_y index (random (2 * index + 1)) |} |}.

Fixpoint map_from (index : nat) (products : list Product)
  : list ScannedProduct :=
  match products with
  | [] => []
  | p :: rest => place index p :: map_from (S index) rest
  end.

Definition productsWithPositions (products : list Product)
  : list ScannedProduct := map_from 0 products.

Definition found_toast (n : nat) : Toast :=
  {| toast_title := js "Products found!";
     description :=
       js "Discovered " ++ decimal (N.of_nat n) ++ js " shoppable item"
          ++ (if 1 <? n then js "s" else []) ++ js ".";
     variant := Default |}.

Definition none_toast : Toast :=
  {| toast_title := js "No products found";
     description := js "Try scanning a different frame with visible products.";
     variant := Default |}.

Definition failed_toast (message : jsstring) : Toast :=
  {| toast_title := js "Scan failed";
     description :=
       match message with
       | [] => js "Please try again later."
       | _ :: _ => message
       end;
     variant := Destructive |}.

(** [scanProducts] from its [await] on, for the [k]-th request in
    flight: the [try] body, the [catch] and the [finally]. *)
Definition settle (k : nat) (result : InvokeResult) (s : State) : State :=
  match nth_error (in_flight s) k with
  | None => s
  | Some _ =>
      let rest := firstn k (in_flight s) ++ skipn (S k) (in_flight s) in
      match result with
      | InvokeError message =>
          {| route_id := route_id s; video := video s; loading := loading s;
             isPlaying := isPlaying s; isScanning := false;
             scannedProducts := scannedProducts s;
             showProducts := showProducts s;
             toasts := failed_toast message :: toasts s;
             sent := sent s; in_flight := rest |}
      | InvokeData (Some (p :: ps)) =>
          {| route_id := route_id s; video := video s; loading := loading s;
             isPlaying := isPlaying s; isScanning := false;
             scannedProducts := productsWithPositions (p :: ps);
             showProducts := true;
             toasts := found_toast (length (p :: ps)) :: toasts s;
             sent := sent s; in_flight := rest |}
      | InvokeData _ =>
          {| route_id := route_id s; video := video s; loading := loading s;
             isPlaying := isPlaying s; isScanning := false;
             scannedProducts := scannedProducts s;
             showProducts := showProducts s;
             toasts := none_toast :: toasts s;
             sent := sent s; in_flight := rest |}
      end
  end.

End Settle.

(** *** Events *)

(** The Scan Products button is rendered once a video is loaded; it is
    [disabled={isScanning}] over the embedded player and
    [disabled={isScanning || isPlaying}] over the video element. *)
Definition scan_button_enabled (s : State) : bool :=
  match video s with
  | None => false
  | Some _ =>
      if loading s then false
      else if is_youtube (video s) then negb (isScanning s)
      else negb (isScanning s || isPlaying s)
  end.

(** A click reaches [scanProducts] only through the button as it was last
    rendered, and the state a click handler sets is rendered before the
    next event is dispatched; each event below is therefore one atomic
    step. *)
Inductive Event :=
| ClickScan (dom : Dom)
| Settled (k : nat) (result : InvokeResult) (now : nat -> N) (random : nat -> Q)
| RouteChanged (new_id : jsstring)
| VideoFetched (data : VideoData)
| Dismiss
| PlayingChanged (playing : bool).

Definition step (s : State) (e : Event) : State :=
  match e with
  | ClickScan dom => if scan_button_enabled s then scanProducts dom s else s
  | Settled k result now random => settle now random k result s
  | RouteChanged new_id =>
      {| route_id := new_id; video := video s; loading := loading s;
         isPlaying := isPlaying s; isScanning := isScanning s;
         scannedProducts := scannedProducts s;
         showProducts := showProducts s;
         toasts := toasts s; sent := sent s; in_flight := in_flight s |}
  | VideoFetched data =>
      {| route_id := route_id s; video := Some data; loading := false;
         isPlaying := isPlaying s; isScanning := isScanning s;
         scannedProducts := scannedProducts s;
         showProducts := showProducts s;
         toasts := toasts s; sent := sent s; in_flight := in_flight s |}
  | Dismiss => set_showProducts false s
  | PlayingChanged playing => set_isPlaying playing s
  end.

Definition run_events (s : State) (es : list Event) : State :=
  fold_left step es s.

Inductive reachable (route : jsstring) : State -> Prop :=
| reach_initial : reachable route (initial route)
| reach_step s e : reachable route s -> reachable route (step s e).

(** *** The scan session of the specification, read off the state

    The page keeps no status field.  A session is [scanning] while
    [isScanning] holds; otherwise the newest toast tells how the last one
    ended. *)
Inductive ScanStatus := idle | scanning | succeeded | failed.

Definition toast_status (t : Toast) : ScanStatus :=
  if (jseqb (toast_title t) (js "Products found!")
      || jseqb (toast_title t) (js "No products found"))%bool then succeeded
  else if (jseqb (toast_title t) (js "Scan failed")
           || jseqb (toast_title t) (js "Could not capture frame"))%bool
       then failed
  else idle.

Definition session_status (s : State) : ScanStatus :=
  if isScanning s then scanning
  else match toasts s with
       | t :: _ => toast_status t
       | [] => idle
       end.

End VideoPlayer.
Import VideoPlayer.

(* ================================================================== *)
(** * Vocabulary of the properties

    Example data, the requirements of the specification as predicates on
    the embedding, and the measures the proofs use. *)

(** ** Example data *)

Definition video_a : VideoData :=
  {| id := js "a"; title := js "First";
     video_url := js "https://cdn.example/a.mp4"; source_type := js "upload" |}.

Definition video_b : VideoData :=
  {| id := js "b"; title := js "Second";
     video_url := js "https://cdn.example/b.mp4"; source_type := js "upload" |}.

Definition decoded_dom : Dom :=
  {| ytPlayerRef := false;
     videoRef := Some {| videoWidth := 640; videoHeight := 360 |};
     canvasRef := Some {| context2d := true;
                          rendering := Some (js "data:image/jpeg;base64,AA") |} |}.

Definition undecoded_dom : Dom :=
  {| ytPlayerRef := false;
     videoRef := Some {| videoWidth := 0; videoHeight := 360 |};
     canvasRef := Some {| context2d := true;
                          rendering := Some (js "data:image/jpeg;base64,AA") |} |}.

Definition bag : Product :=
  {| name := Some (JStr (js "Black leather crossbody bag"));
     category := Some (JStr (js "Fashion"));
     confidence := default_confidence;
     searchUrl :=
       js "https://www.amazon.com/s?k=Black%20leather%20crossbody%20bag" |}.

Definition clock (k : nat) : N := 1700000000000%N.
Definition no_jitter (k : nat) : Q := 0%Q.

(** ** Predicates and measures *)

(** While a request is in flight the page is scanning and shows nothing of
    an earlier scan; otherwise nothing is in flight. *)
Definition single_flight (s : State) : Prop :=
  if isScanning s
  then length (in_flight s) = 1 /\ scannedProducts s = [] /\ showProducts s = false
  else in_flight s = [].

(** The requirement as the specification words it, at one response: if the
    video now displayed is not the one the request was issued for, the
    product list and the overlays stay as they are. *)
Definition discards_stale (s : State) (k : nat) (result : InvokeResult)
           (now : nat -> N) (random : nat -> Q) : Prop :=
  forall request,
    nth_error (in_flight s) k = Some request ->
    option_map id (video s) <> Some (videoId request) ->
    scannedProducts (settle now random k result s) = scannedProducts s
    /\ showProducts (settle now random k result s) = showProducts s.

(** A scan is started on the first video, the page switches to the second,
    and then the response arrives. *)
Definition switched_while_scanning : State :=
  run_events (initial (js "a"))
    [VideoFetched video_a; ClickScan decoded_dom;
     RouteChanged (js "b"); VideoFetched video_b].

Definition half_jitter (k : nat) : Q := (1 # 2)%Q.


(** [v] is [exact] but for a rounding: one part in [2 ^ 53] at most. *)
Definition rounded (exact v : Q) : Prop :=
  (exact * (1 - (1 # 2 ^ 53)) <= v /\ v <= exact * (1 + (1 # 2 ^ 53)))%Q.

(** The unit of the last place of a double of [z] units. *)
Definition grid (z : Z) : Z := (2 ^ Z.max 0 (Z.log2 (Z.abs z) - 52))%Z.

(** The reason a reply of the edge function gives, when it gives one. *)
Definition reply_error (r : Response) : option jsstring :=
  match body r with
  | ErrorBody (Text message) => Some message
  | _ => None
  end.

(** The requirement as the specification words it, at the page: when the
    request in flight is answered with a status outside 200..299, which
    [invoke] reports as an error, the scan ends as failed with the reason
    of that reply. *)
Definition failure_tells_reason (reply : Response) (s : State) (k : nat)
           (message : jsstring) (now : nat -> N) (random : nat -> Q) : Prop :=
  ok (status reply) = false ->
  session_status (settle now random k (InvokeError message) s) = failed
  /\ exists t,
       hd_error (toasts (settle now random k (InvokeError message) s)) = Some t
       /\ reply_error reply = Some (description t).

(** A scan in progress on the first video. *)
Definition scan_in_progress : State :=
  run_events (initial (js "a")) [VideoFetched video_a; ClickScan decoded_dom].

(** The message of an error that does not quote the reply it reports: one
    text for every status outside 200..299. *)
Definition fixed_client_message : jsstring :=
  js "Edge Function returned a non-2xx status code".


Definition post_request : Request :=
  {| is_options := false;
     request_json :=
       Some (JObj [(js "imageData", JStr (js "data:image/jpeg;base64,AA"));
                   (js "videoId", JStr (js "a"));
                   (js "isUrl", JBool false)]) |}.

(** A gateway reply whose first choice carries [content] as its message. *)
Definition completion (content : json) : json :=
  JObj [(js "choices",
         JArr [JObj [(js "message", JObj [(js "content", content)])]])].

Definition bag_answer : jsstring :=
  jsq "[{'name':'Black leather crossbody bag','category':'Fashion'}]".

(** The examples print no number, so any printer serves them. *)
Definition no_number_printer (q : Q) : jsstring := [].

Definition mug_entry : json :=
  JObj [(js "name", JStr (js "Mug")); (js "category", JStr (js "Home"))].

Definition mug_zero_entry : json :=
  JObj [(js "name", JStr (js "Mug")); (js "category", JStr (js "Home"));
        (js "confidence", JNum (Num 0))].

(** The model answer, once trimmed and stripped of its fence, parses as an
    array. *)
Definition parses_as_array (content : json) : bool :=
  match content with
  | JStr c =>
      match JSON_parse (strip_fences (trim c)) with
      | Some (JArr _) => true
      | _ => false
      end
  | _ => false
  end.

(** The least number of characters a match of a pattern consumes. *)
Fixpoint min_length (r : re) : nat :=
  match r with
  | Lit l => length l
  | Rep _ n => n
  | Star _ | Opt _ | Bol | Eol => 0
  | Seq a b => min_length a + min_length b
  | Alt a b => Nat.min (min_length a) (min_length b)
  | Group a => min_length a
  end.

(** Any character but the letter [y], with which every pattern of
    [extractYoutubeId] begins. *)
Definition not_y (c : N) : bool := negb (N.eqb c 121).

(** An identifier: eleven characters of the class. *)
Definition well_formed_id (i : jsstring) : Prop :=
  length i = 11 /\ forallb id_char i = true.

(** The second entry of [patterns]. *)
Definition watch_params_pattern : re :=
  cat [Lit (js "youtube.com/watch?"); Star dot; Lit (js "v=");
       Group (Rep id_char 11)].

(** A watch URL whose [v] parameter is followed by another parameter. *)
Definition shared_watch_url : jsstring :=
  js "https://www.youtube.com/watch?feature=share&v=dQw4w9WgXcQ&rev=AAAAAAAAAAA".

(* ================================================================== *)
(** * Further parts of the pages *)

(** ** The time display ([formatTime]) *)

Module TimeDisplay.



Section Printing.

(** [Number::toString] of a finite Number that is not whole, or is of
    magnitude [2 ^ 53] or more: the shortest digits that read back as the
    same double. *)
Variable Number_toString : Q -> jsstring.



End Printing.

End TimeDisplay.

(** ** The library page ([Dashboard]) *)

Module Dashboard.

(** [^([a-zA-Z0-9_-]{11})$], the eighth pattern of the library page. *)
Definition bare_id : re := cat [Bol; Group (Rep id_char 11); Eol].

(** The seven patterns of the player page in the same order, then the bare
    identifier. *)
Definition patterns : list re := patterns ++ [bare_id].

Definition extractYoutubeId (url : jsstring) : option jsstring :=
  first_capture patterns (trim url).

(** The row [handleYoutubeUpload] inserts into [videos]. *)
Record VideoInsert := {
  user_id : jsstring;
  title : jsstring;
  video_url : jsstring;
  thumbnail_url : jsstring;
  source_type : jsstring
}.

Inductive UploadResult :=
| MissingFields                       (* toast, nothing else *)
| UploadFailed (message : jsstring)   (* the [catch] *)
| VideoAdded.

(** [handleYoutubeUpload]: [user] is what [getUser] yields and
    [insert_error] the [error] of the insert, if it is attempted.  The
    result comes with the rows sent to the backend. *)
Definition handleYoutubeUpload (youtubeUrl videoTitle : jsstring)
           (user : option jsstring) (insert_error : option jsstring)
  : UploadResult * list VideoInsert :=
  match youtubeUrl, videoTitle with
  | [], _ | _, [] => (MissingFields, [])
  | _ :: _, _ :: _ =>
      match user with
      | None => (UploadFailed (js "Not authenticated"), [])
      | Some uid =>
          match extractYoutubeId youtubeUrl with
          | None => (UploadFailed (js "Invalid YouTube URL"), [])
          | Some videoId =>
              let row :=
                {| user_id := uid;
                   title := videoTitle;
                   video_url := youtubeUrl;
                   thumbnail_url :=
                     js "https://img.youtube.com/vi/" ++ videoId
                        ++ js "/maxresdefault.jpg";
                   source_type := js "youtube" |} in
              match insert_error with
              | Some message => (UploadFailed message, [row])
              | None => (VideoAdded, [row])
              end
          end
      end
  end.

(** The file name without its extension:
    [file.name.replace(/\.[^/.]+$/, empty)]. *)
Definition extension_char (c : N) : bool := negb (N.eqb c 47 || N.eqb c 46).

Definition extension_pattern : re :=
  cat [Lit (js "."); Plus extension_char; Eol].

Definition file_title (name : jsstring) : jsstring :=
  replace_empty name extension_pattern.

(** [name.split(".").pop()]: what follows the last point, or the whole
    name when it has none. *)
Fixpoint after_last_point (segment name : jsstring) : jsstring :=
  match name with
  | [] => rev segment
  | c :: rest =>
      if N.eqb c 46 then after_last_point [] rest
      else after_last_point (c :: segment) rest
  end.

Definition fileExt (name : jsstring) : jsstring := after_last_point [] name.

End Dashboard.

(** ** From the library to the player, and from the player to the edge
       function *)

(** The record the player reads back for a row of the library. *)
Definition stored_video (row_id : jsstring) (row : Dashboard.VideoInsert)
  : VideoData :=
  {| id := row_id;
     title := Dashboard.title row;
     video_url := Dashboard.video_url row;
     source_type := Dashboard.source_type row |}.

(** The body [invoke] sends for a request, as the edge function parses
    it. *)
Definition invoke_body (r : Invocation) : json :=
  JObj [(js "imageData", JStr (imageData r));
        (js "videoId", JStr (videoId r));
        (js "isUrl", JBool (isUrl r))].

Definition edge_request (r : Invocation) : Request :=
  {| is_options := false; request_json := Some (invoke_body r) |}.

(** ** Vocabulary of the further properties *)

(** A string of code units proper. *)
Definition code_units (s : jsstring) : bool :=
  forallb (fun c => N.ltb c 65536) s.

(** A row of the library for a short link. *)
Definition clip_row : Dashboard.VideoInsert :=
  {| Dashboard.user_id := js "u1";
     Dashboard.title := js "Clip";
     Dashboard.video_url := js "https://youtu.be/dQw4w9WgXcQ";
     Dashboard.thumbnail_url :=
       js "https://img.youtube.com/vi/dQw4w9WgXcQ/maxresdefault.jpg";
     Dashboard.source_type := js "youtube" |}.

(** A video of the embedded backend. *)
Definition rickroll : VideoData :=
  {| id := js "c"; title := js "Third";
     video_url := js "https://youtu.be/dQw4w9WgXcQ";
     source_type := js "youtube" |}.

(** An entry whose name is a lone lead surrogate. *)
Definition lone_surrogate_entry : json :=
  JObj [(js "name", JStr [55357%N]); (js "category", JStr (js "Home"))].

(** What may stand in a query value: the unreserved characters and the
    percent sign of an escape. *)
Definition query_safe (c : N) : bool := (uri_unreserved c || N.eqb c 37)%bool.

(** The two code fences around a body, each on a line of its own. *)
Definition fenced_json (body : jsstring) : jsstring :=
  js "```json" ++ 10%N :: body ++ 10%N :: js "```".

Definition fenced_plain (body : jsstring) : jsstring :=
  js "```" ++ 10%N :: body ++ 10%N :: js "```".

(** Every request the page has sent carries an image, and the ones flagged
    as URLs carry the thumbnail of some identifier. *)
Definition sent_well_formed (s : State) : Prop :=
  forall r, In r (sent s) ->
    imageData r <> []
    /\ (isUrl r = true ->
        exists videoId, imageData r = getYoutubeThumbnail videoId).

(** The overlays are on only over a list that has products. *)
Definition overlays_have_products (s : State) : Prop :=
  showProducts s = true -> scannedProducts s <> [].

(* ================================================================== *)
(** * Properties *)

(** ** Capture failure (C7) *)

Lemma captureFrame_no_dimensions dom videoEl :
  videoRef dom = Some videoEl ->
  videoWidth videoEl = 0%N \/ videoHeight videoEl = 0%N ->
  captureFrame dom = None.
Proof.
  intros Hv Hz. unfold captureFrame. rewrite Hv.
  destruct (canvasRef dom) as [canvas|]; [|reflexivity].
  destruct (context2d canvas); [|reflexivity]. cbn.
  destruct Hz as [-> | ->]; cbn; [reflexivity|].
  now rewrite orb_true_r.
Qed.

(** C7. On the native backend, when the video element reports zero width
    or zero height, [captureFrame] returns the no-frame value, and
    [scanProducts] only pauses and raises the destructive toast that tells
    the user no frame could be captured: it issues no request, leaves
    nothing in flight and does not enter the scanning state, so a session
    that was not scanning ends as failed. *)
Theorem capture_unavailable_no_request (s : State) (dom : Dom) (videoEl : VideoElement) :
  is_youtube (video s) = false ->
  videoRef dom = Some videoEl ->
  videoWidth videoEl = 0%N \/ videoHeight videoEl = 0%N ->
  captureFrame dom = None
  /\ scanProducts dom s = toast capture_toast (set_isPlaying false s)
  /\ sent (scanProducts dom s) = sent s
  /\ in_flight (scanProducts dom s) = in_flight s
  /\ isScanning (scanProducts dom s) = isScanning s
  /\ hd_error (toasts (scanProducts dom s)) = Some capture_toast
  /\ variant capture_toast = Destructive
  /\ (isScanning s = false -> session_status (scanProducts dom s) = failed).
Proof.
  intros Hy Hv Hz.
  pose proof (captureFrame_no_dimensions dom Hv Hz) as Hc.
  assert (Hs : scanProducts dom s = toast capture_toast (set_isPlaying false s)).
  { unfold scanProducts. rewrite Hy, Hv, Hc. cbn.
    destruct (video s); reflexivity. }
  rewrite Hs. repeat split; try reflexivity; try assumption.
  intros Hi. unfold session_status. cbn. now rewrite Hi.
Qed.

Lemma capture_unavailable_no_request_witness :
  captureFrame undecoded_dom = None
  /\ sent (scanProducts undecoded_dom (step (initial (js "a")) (VideoFetched video_a)))
     = [].
Proof.
  pose proof (@capture_unavailable_no_request
                (step (initial (js "a")) (VideoFetched video_a))
                undecoded_dom {| videoWidth := 0; videoHeight := 360 |}
                eq_refl eq_refl (or_introl eq_refl)) as H.
  split; [exact (proj1 H) | exact (proj1 (proj2 (proj2 H)))].
Defined.

(** ** Single flight (C2) *)

Lemma scan_button_disabled_while_scanning s :
  isScanning s = true -> scan_button_enabled s = false.
Proof.
  intros H. unfold scan_button_enabled. rewrite H.
  destruct (video s); [|reflexivity].
  destruct (loading s); [reflexivity|].
  destruct (is_youtube _); reflexivity.
Qed.

Lemma scanProducts_cases dom s :
  scanProducts dom s = toast capture_toast s
  \/ scanProducts dom s = toast capture_toast (set_isPlaying false s)
  \/ exists request,
       isScanning (scanProducts dom s) = true
       /\ in_flight (scanProducts dom s) = request :: in_flight s
       /\ sent (scanProducts dom s) = request :: sent s
       /\ videoId request = route_id s
       /\ scannedProducts (scanProducts dom s) = []
       /\ showProducts (scanProducts dom s) = false.
Proof.
  unfold scanProducts.
  set (paused := if (is_youtube (video s) && ytPlayerRef dom)%bool
                 then set_isPlaying false s
                 else match videoRef dom with
                      | Some _ => set_isPlaying false s
                      | None => s
                      end).
  assert (Hp : paused = s \/ paused = set_isPlaying false s).
  { subst paused. destruct (is_youtube (video s) && ytPlayerRef dom)%bool;
      [now right|]. destruct (videoRef dom); [now right | now left]. }
  match goal with
  | |- context [match ?img with None => _ | Some _ => _ end] =>
      destruct img as [[|c d]|]
  end.
  - destruct Hp as [-> | ->]; auto.
  - right; right. eexists. cbn.
    destruct Hp as [-> | ->]; cbn; repeat split; reflexivity.
  - destruct Hp as [-> | ->]; auto.
Qed.

Lemma single_flight_step s e : single_flight s -> single_flight (step s e).
Proof.
  unfold single_flight. intros H. destruct e as [dom|k result now random|r|d| |b]; cbn.
  - destruct (scan_button_enabled s) eqn:He; [|exact H].
    destruct (isScanning s) eqn:Hs.
    { now rewrite (scan_button_disabled_while_scanning s Hs) in He. }
    destruct (scanProducts_cases dom s) as [-> | [-> | (rq & Hi & Hf & _ & _ & Hp & Hv)]];
      cbn; rewrite ?Hs; try exact H.
    rewrite Hi, Hf, H. auto.
  - unfold settle. destruct (nth_error (in_flight s) k) eqn:Hk; [|exact H].
    destruct (isScanning s).
    + destruct H as (Hl & _ & _).
      destruct (in_flight s) as [|rq [|rq' l]]; try discriminate.
      destruct k as [|k]; [|destruct k; discriminate].
      destruct result as [m|[[|p ps]|]]; reflexivity.
    + rewrite H in Hk. destruct k; discriminate.
  - exact H.
  - exact H.
  - destruct (isScanning s); [|exact H]. tauto.
  - exact H.
Qed.

Lemma reachable_single_flight route s : reachable route s -> single_flight s.
Proof.
  induction 1 as [|s e _ IH]; [reflexivity | now apply single_flight_step].
Qed.

(** C2. In every state the page can reach, at most one classification
    request is in flight.  Once a click has put the page into the scanning
    state exactly one request is in flight, and a second click is ignored:
    the button is disabled, the state does not change and no further
    request is issued. *)
Theorem scan_twice_single_request (route : jsstring) (s : State) (dom1 dom2 : Dom) :
  reachable route s ->
  length (in_flight s) <= 1
  /\ (isScanning s = true -> scan_button_enabled s = false)
  /\ (isScanning (step s (ClickScan dom1)) = true ->
      length (in_flight (step s (ClickScan dom1))) = 1
      /\ step (step s (ClickScan dom1)) (ClickScan dom2) = step s (ClickScan dom1)
      /\ length (in_flight (step (step s (ClickScan dom1)) (ClickScan dom2))) = 1).
Proof.
  intros Hr. split; [|split].
  - pose proof (reachable_single_flight Hr) as H. unfold single_flight in H.
    destruct (isScanning s); [destruct H as (-> & _); lia | rewrite H; cbn; lia].
  - apply scan_button_disabled_while_scanning.
  - intros Hs.
    pose proof (reachable_single_flight (reach_step (ClickScan dom1) Hr)) as H.
    unfold single_flight in H. rewrite Hs in H. destruct H as (Hl & _ & _).
    assert (Hn : step (step s (ClickScan dom1)) (ClickScan dom2)
                 = step s (ClickScan dom1)).
    { set (s1 := step s (ClickScan dom1)) in *. cbn [step].
      now rewrite (scan_button_disabled_while_scanning _ Hs). }
    now rewrite Hn.
Qed.

Lemma scan_twice_single_request_witness :
  length (in_flight (run_events (initial (js "a"))
                       [VideoFetched video_a; ClickScan decoded_dom;
                        ClickScan decoded_dom])) = 1.
Proof.
  refine (proj2 (proj2 (proj2 (proj2
    (@scan_twice_single_request (js "a")
       (step (initial (js "a")) (VideoFetched video_a))
       decoded_dom decoded_dom
       (reach_step (VideoFetched video_a) (reach_initial (js "a")))))
    eq_refl))).
Defined.

(** ** Late responses (C1) *)

(** C1 as stated does not hold.  A response that arrives after the switch
    is applied all the same: the request in flight was issued for video
    [a], video [b] is displayed, and the product found in the frame of [a]
    becomes the visible overlay. *)
Lemma late_response_is_applied :
  map videoId (in_flight switched_while_scanning) = [js "a"]
  /\ option_map id (video switched_while_scanning) = Some (js "b")
  /\ scannedProducts switched_while_scanning = []
  /\ showProducts switched_while_scanning = false
  /\ scannedProducts
       (step switched_while_scanning
             (Settled 0 (InvokeData (Some [bag])) clock no_jitter))
     = productsWithPositions clock no_jitter [bag]
  /\ showProducts
       (step switched_while_scanning
             (Settled 0 (InvokeData (Some [bag])) clock no_jitter))
     = true
  /\ ~ discards_stale switched_while_scanning 0 (InvokeData (Some [bag]))
                      clock no_jitter.
Proof.
  repeat split.
  intros H.
  specialize (H {| imageData := js "data:image/jpeg;base64,AA";
                   videoId := js "a"; isUrl := false |}
                eq_refl).
  destruct H as [_ H]; [intros E; inversion E | discriminate H].
Qed.

(** C1, as the code has it.  The result handler makes no identity check:
    whatever video is displayed when the response of a request in flight
    arrives, and whatever video the request was issued for, a non-empty
    product list replaces the stored list and turns the overlays on, while
    an error or an empty list leaves both untouched; the displayed video is
    not changed by the handler, and the request leaves the flight list. *)
Theorem response_applied_regardless_of_video
        (s : State) (k : nat) (request : Invocation) (result : InvokeResult)
        (now : nat -> N) (random : nat -> Q) :
  nth_error (in_flight s) k = Some request ->
  let s' := settle now random k result s in
  video s' = video s
  /\ isScanning s' = false
  /\ length (in_flight s') = pred (length (in_flight s))
  /\ match result with
     | InvokeData (Some (p :: ps)) =>
         scannedProducts s' = productsWithPositions now random (p :: ps)
         /\ showProducts s' = true
     | _ =>
         scannedProducts s' = scannedProducts s
         /\ showProducts s' = showProducts s
     end.
Proof.
  intros Hk. cbn zeta. unfold settle. rewrite Hk.
  assert (Hl : length (firstn k (in_flight s) ++ skipn (S k) (in_flight s))
               = pred (length (in_flight s))).
  { assert (k < length (in_flight s)) by (apply nth_error_Some; congruence).
    rewrite length_app, length_firstn, length_skipn. lia. }
  destruct result as [m|[[|p ps]|]]; cbn; auto.
Qed.

Lemma response_applied_regardless_of_video_witness :
  video (settle clock no_jitter 0 (InvokeData (Some [bag])) switched_while_scanning)
  = Some video_b
  /\ showProducts
       (settle clock no_jitter 0 (InvokeData (Some [bag])) switched_while_scanning)
     = true.
Proof.
  pose proof (@response_applied_regardless_of_video
                switched_while_scanning 0
                {| imageData := js "data:image/jpeg;base64,AA";
                   videoId := js "a"; isUrl := false |}
                (InvokeData (Some [bag])) clock no_jitter eq_refl) as H.
  cbn zeta in H.
  split; [exact (proj1 H) | exact (proj2 (proj2 (proj2 (proj2 H))))].
Defined.

(** ** Rounding to the nearest double *)

Section Rounding.

Import Double.
Local Open Scope Z_scope.

Lemma nearest_even_mono n1 n2 d :
  0 < d -> n1 <= n2 -> nearest_even n1 d <= nearest_even n2 d.
Proof.
  intros Hd Hn. unfold nearest_even.
  pose proof (Z.div_mod n1 d ltac:(lia)) as E1.
  pose proof (Z.div_mod n2 d ltac:(lia)) as E2.
  pose proof (Z.mod_pos_bound n1 d Hd) as B1.
  pose proof (Z.mod_pos_bound n2 d Hd) as B2.
  pose proof (Z.div_le_mono n1 n2 d Hd Hn) as Hf.
  assert (Hc : n1 / d < n2 / d \/ (n1 / d = n2 / d /\ n1 mod d <= n2 mod d)) by nia.
  destruct (Z.compare_spec (2 * (n1 mod d)) d), (Z.compare_spec (2 * (n2 mod d)) d);
    destruct Hc as [Hc|[Hc Hr]]; rewrite ?Hc;
    repeat match goal with |- context [Z.even ?a] => destruct (Z.even a) end; lia.
Qed.

Lemma nearest_even_exact z d : 0 < d -> nearest_even (z * d) d = z.
Proof.
  intros Hd. unfold nearest_even.
  rewrite Z.div_mul, Z.mod_mul by lia.
  destruct (Z.compare_spec (2 * 0) d); lia.
Qed.

Lemma nearest_even_error n d :
  0 < d -> 2 * Z.abs (nearest_even n d * d - n) <= d.
Proof.
  intros Hd. unfold nearest_even.
  pose proof (Z.div_mod n d ltac:(lia)) as E.
  pose proof (Z.mod_pos_bound n d Hd) as B.
  destruct (Z.compare_spec (2 * (n mod d)) d);
    repeat match goal with |- context [Z.even ?a] => destruct (Z.even a) end; nia.
Qed.

Lemma nearest_even_scale n d c :
  0 < d -> 0 < c -> nearest_even (n * c) (d * c) = nearest_even n d.
Proof.
  intros Hd Hc. unfold nearest_even.
  rewrite Z.div_mul_cancel_r, Z.mul_mod_distr_r by lia.
  destruct (Z.compare_spec (2 * (n mod d * c)) (d * c)),
           (Z.compare_spec (2 * (n mod d)) d); try reflexivity; nia.
Qed.

Lemma last_place_nonneg n d : 0 <= last_place n d.
Proof. unfold last_place. lia. Qed.

Lemma last_place_scale n d c :
  0 < d -> 0 < c -> last_place (n * c) (d * c) = last_place n d.
Proof.
  intros Hd Hc. unfold last_place.
  rewrite Z.abs_mul, (Z.abs_eq c), Z.div_mul_cancel_r by lia. reflexivity.
Qed.

Lemma last_place_mono n1 n2 d :
  0 < d -> 0 <= n1 <= n2 -> last_place n1 d <= last_place n2 d.
Proof.
  intros Hd Hn. unfold last_place.
  rewrite !Z.abs_eq by lia.
  pose proof (Z.log2_le_mono (n1 / d) (n2 / d)
                (Z.div_le_mono n1 n2 d Hd ltac:(lia))).
  lia.
Qed.

(** Below the next power of two of its last place plus 53. *)
Lemma below_binade n d :
  0 < d -> 0 <= n -> n < d * 2 ^ (last_place n d + 53).
Proof.
  intros Hd Hn.
  pose proof (Z.div_mod n d ltac:(lia)) as E.
  pose proof (Z.mod_pos_bound n d Hd) as B.
  assert (Hf : 0 <= n / d) by (apply Z.div_pos; lia).
  assert (Hl : n / d < 2 ^ (last_place n d + 53)).
  { unfold last_place. rewrite Z.abs_eq by lia.
    destruct (Z.eq_dec (n / d) 0) as [H0|H0].
    - rewrite H0. apply Z.pow_pos_nonneg; cbn; lia.
    - pose proof (Z.log2_spec (n / d) ltac:(lia)) as [_ S].
      eapply Z.lt_le_trans; [exact S|].
      apply Z.pow_le_mono_r; lia. }
  nia.
Qed.

(** At or above the power of two of its last place plus 52, when the last
    place is not the least one. *)
Lemma above_binade n d :
  0 < d -> 0 <= n -> 0 < last_place n d -> d * 2 ^ (last_place n d + 52) <= n.
Proof.
  intros Hd Hn He.
  pose proof (Z.div_mod n d ltac:(lia)) as E.
  pose proof (Z.mod_pos_bound n d Hd) as B.
  unfold last_place in *. rewrite Z.abs_eq in * by lia.
  assert (Hp : 0 < n / d).
  { destruct (Z_lt_le_dec 0 (n / d)); [assumption|].
    rewrite Z.log2_nonpos in He by lia. lia. }
  pose proof (Z.log2_spec (n / d) Hp) as [S _].
  replace (Z.max 0 (Z.log2 (n / d) - 52) + 52) with (Z.log2 (n / d)) by lia.
  nia.
Qed.

Lemma round_units_scale n d c :
  0 < d -> 0 < c -> round_units (n * c) (d * c) = round_units n d.
Proof.
  intros Hd Hc. unfold round_units. rewrite last_place_scale by assumption.
  pose proof (last_place_nonneg n d).
  replace (d * c * 2 ^ last_place n d) with (d * 2 ^ last_place n d * c) by ring.
  rewrite nearest_even_scale; [reflexivity| |assumption].
  apply Z.mul_pos_pos; [assumption|]. apply Z.pow_pos_nonneg; lia.
Qed.

Lemma round_units_exact m k d :
  0 < d -> 0 <= k -> Z.abs m < 2 ^ 53 ->
  round_units (m * 2 ^ k * d) d = m * 2 ^ k.
Proof.
  intros Hd Hk Hm. unfold round_units.
  set (e := last_place (m * 2 ^ k * d) d).
  assert (He : 0 <= e <= k).
  { subst e. unfold last_place. rewrite Z.abs_mul, (Z.abs_eq d), Z.div_mul by lia.
    split; [lia|].
    destruct (Z.eq_dec m 0) as [->|Hm0]; [cbn; lia|].
    assert (Z.abs (m * 2 ^ k) < 2 ^ (53 + k)).
    { rewrite Z.abs_mul, Z.pow_add_r by lia.
      rewrite (Z.abs_eq (2 ^ k)) by (apply Z.pow_nonneg; lia).
      apply Z.mul_lt_mono_pos_r; [apply Z.pow_pos_nonneg; lia|assumption]. }
    assert (0 < Z.abs (m * 2 ^ k)).
    { rewrite Z.abs_mul. apply Z.mul_pos_pos; [lia|].
      rewrite Z.abs_eq; apply Z.pow_pos_nonneg || apply Z.pow_nonneg; lia. }
    pose proof (proj1 (Z.log2_lt_pow2 (Z.abs (m * 2 ^ k)) (53 + k) ltac:(lia))
                      ltac:(assumption)).
    lia. }
  replace (m * 2 ^ k * d) with (m * 2 ^ (k - e) * (d * 2 ^ e)).
  2:{ replace k with (k - e + e) at 2 by lia.
      rewrite (Z.pow_add_r 2 (k - e) e) by lia. ring. }
  rewrite nearest_even_exact.
  - replace k with (k - e + e) at 2 by lia.
    rewrite (Z.pow_add_r 2 (k - e) e) by lia. ring.
  - apply Z.mul_pos_pos; [assumption|]. apply Z.pow_pos_nonneg; lia.
Qed.

Lemma round_units_mono n1 n2 d :
  0 < d -> 0 <= n1 <= n2 -> round_units n1 d <= round_units n2 d.
Proof.
  intros Hd Hn.
  pose proof (last_place_mono Hd Hn) as He.
  pose proof (last_place_nonneg n1 d) as H1.
  pose proof (last_place_nonneg n2 d) as H2.
  unfold round_units.
  set (e1 := last_place n1 d) in *. set (e2 := last_place n2 d) in *.
  assert (P1 : 0 < 2 ^ e1) by (apply Z.pow_pos_nonneg; lia).
  assert (P2 : 0 < 2 ^ e2) by (apply Z.pow_pos_nonneg; lia).
  destruct (Z.eq_dec e1 e2) as [E|E].
  - rewrite <- E. apply Z.mul_le_mono_nonneg_r; [lia|].
    apply nearest_even_mono; [nia|lia].
  - assert (U : nearest_even n1 (d * 2 ^ e1) <= 2 ^ 53).
    { rewrite <- (nearest_even_exact (2 ^ 53) (d := d * 2 ^ e1)) by nia.
      apply nearest_even_mono; [nia|].
      pose proof (below_binade Hd (proj1 Hn)) as B. fold e1 in B.
      rewrite Z.pow_add_r in B by lia. nia. }
    assert (L : 2 ^ 52 <= nearest_even n2 (d * 2 ^ e2)).
    { rewrite <- (nearest_even_exact (2 ^ 52) (d := d * 2 ^ e2)) by nia.
      apply nearest_even_mono; [nia|].
      pose proof (@above_binade n2 d Hd ltac:(lia) ltac:(fold e2; lia)) as B.
      fold e2 in B. rewrite Z.pow_add_r in B by lia. nia. }
    assert (Hp : 2 ^ e2 = 2 ^ (e2 - e1 - 1) * 2 * 2 ^ e1).
    { replace e2 with ((e2 - e1 - 1) + 1 + e1) at 1 by lia.
      rewrite !Z.pow_add_r by lia. ring. }
    assert (0 < 2 ^ (e2 - e1 - 1)) by (apply Z.pow_pos_nonneg; lia).
    revert U L.
    generalize (nearest_even n1 (d * 2 ^ e1)), (nearest_even n2 (d * 2 ^ e2)).
    intros a b U L. rewrite Hp.
    transitivity (2 ^ 53 * 2 ^ e1);
      [apply Z.mul_le_mono_nonneg_r; [lia|exact U]|].
    transitivity (2 ^ 52 * (2 ^ (e2 - e1 - 1) * 2 * 2 ^ e1));
      [|apply Z.mul_le_mono_nonneg_r; [nia|exact L]].
    change (2 ^ 53) with (2 ^ 52 * 2).
    assert (P52 : 0 < 2 ^ 52) by reflexivity.
    revert P52 P1 H.
    generalize (2 ^ 52), (2 ^ e1), (2 ^ (e2 - e1 - 1)).
    intros. nia.
Qed.

Lemma round_units_error n d :
  0 < d ->
  2 * Z.abs (round_units n d * d - n) <= d * 2 ^ last_place n d.
Proof.
  intros Hd. unfold round_units.
  pose proof (last_place_nonneg n d).
  assert (P : 0 < d * 2 ^ last_place n d).
  { apply Z.mul_pos_pos; [assumption|]. apply Z.pow_pos_nonneg; lia. }
  pose proof (nearest_even_error n P) as E.
  replace (nearest_even n (d * 2 ^ last_place n d) * 2 ^ last_place n d * d - n)
    with (nearest_even n (d * 2 ^ last_place n d) * (d * 2 ^ last_place n d) - n)
    by ring.
  exact E.
Qed.

(** ** The Number value for a rational *)

Lemma units_proper p q : (p == q)%Q -> units p = units q.
Proof.
  unfold Qeq, units. intros E.
  rewrite <- (@round_units_scale (Qnum p * 2 ^ 1074) (Zpos (Qden p)) (Zpos (Qden q)))
    by lia.
  rewrite <- (@round_units_scale (Qnum q * 2 ^ 1074) (Zpos (Qden q)) (Zpos (Qden p)))
    by lia.
  f_equal; [|ring].
  replace (Qnum p * 2 ^ 1074 * Zpos (Qden q)) with (Qnum p * Zpos (Qden q) * 2 ^ 1074) by ring.
  rewrite E. ring.
Qed.

Lemma units_mono p q : (0 <= p)%Q -> (p <= q)%Q -> units p <= units q.
Proof.
  unfold Qle, units. cbn [Qnum Qden]. intros H0 H.
  rewrite <- (@round_units_scale (Qnum p * 2 ^ 1074) (Zpos (Qden p)) (Zpos (Qden q)))
    by lia.
  rewrite <- (@round_units_scale (Qnum q * 2 ^ 1074) (Zpos (Qden q)) (Zpos (Qden p)))
    by lia.
  rewrite (Z.mul_comm (Zpos (Qden q)) (Zpos (Qden p))).
  assert (P : 0 < 2 ^ 1074) by reflexivity.
  revert P. generalize (2 ^ 1074). intros u P.
  apply round_units_mono; [lia|]. nia.
Qed.

Lemma units_exact q m k :
  0 <= k -> Z.abs m < 2 ^ 53 ->
  Qnum q * 2 ^ 1074 = m * 2 ^ k * Zpos (Qden q) ->
  units q = m * 2 ^ k.
Proof.
  intros Hk Hm E. unfold units. rewrite E.
  apply round_units_exact; lia.
Qed.

Lemma units_zero : units 0 = 0.
Proof. reflexivity. Qed.

Lemma nearest_finite q :
  Z.abs (units q) < 2 ^ 2098 -> nearest q = Finite (Qred (units q # 2 ^ 1074)).
Proof.
  intros H. unfold nearest. cbn zeta.
  destruct (Z.leb_spec (2 ^ 2098) (Z.abs (units q))); [lia|reflexivity].
Qed.

Lemma nearest_Finite_inv q v :
  nearest q = Finite v ->
  Z.abs (units q) < 2 ^ 2098 /\ v = Qred (units q # 2 ^ 1074).
Proof.
  unfold nearest. cbn zeta.
  destruct (Z.leb_spec (2 ^ 2098) (Z.abs (units q))).
  - destruct (0 <? units q); discriminate.
  - intros [= <-]. split; [assumption|reflexivity].
Qed.

Lemma nearest_proper p q : (p == q)%Q -> nearest p = nearest q.
Proof. intros E. unfold nearest. now rewrite (units_proper E). Qed.

Lemma units_le_Qle a b : a <= b -> (a # 2 ^ 1074 <= b # 2 ^ 1074)%Q.
Proof. intros H. unfold Qle. cbn [Qnum Qden]. nia. Qed.

(** Rounding keeps the order of non-negative numbers. *)
Lemma nearest_between lo hi q vlo vhi :
  (0 <= lo)%Q -> (lo <= q)%Q -> (q <= hi)%Q ->
  nearest lo = Finite vlo -> nearest hi = Finite vhi ->
  exists v, nearest q = Finite v /\ (vlo <= v)%Q /\ (v <= vhi)%Q.
Proof.
  intros H0 H1 H2 Elo Ehi.
  apply nearest_Finite_inv in Elo as [Blo ->]. apply nearest_Finite_inv in Ehi as [Bhi ->].
  pose proof (units_mono H0 H1) as M1.
  pose proof (@units_mono q hi ltac:(lra) H2) as M2.
  pose proof (@units_mono 0 lo ltac:(lra) H0) as M0. rewrite units_zero in M0.
  exists (Qred (units q # 2 ^ 1074)). split; [apply nearest_finite; lia|].
  rewrite !Qred_le. split; apply units_le_Qle; assumption.
Qed.

Lemma nearest_exact q m j :
  0 <= j <= 1074 -> Z.abs m < 2 ^ 53 ->
  Qnum q * 2 ^ j = m * Zpos (Qden q) ->
  nearest q = Finite (Qred q).
Proof.
  intros Hj Hm E.
  assert (U : units q = m * 2 ^ (1074 - j)).
  { apply units_exact; [lia|assumption|].
    replace (2 ^ 1074) with (2 ^ j * 2 ^ (1074 - j)).
    2:{ rewrite <- Z.pow_add_r by lia. f_equal. lia. }
    rewrite Z.mul_assoc, E. ring. }
  rewrite nearest_finite.
  - f_equal. apply Qred_complete. rewrite U. unfold Qeq. cbn [Qnum Qden].
    replace (Zpos (2 ^ 1074)) with (2 ^ j * 2 ^ (1074 - j)).
    2:{ rewrite <- Z.pow_add_r by lia. replace (j + (1074 - j)) with 1074 by lia.
        reflexivity. }
    rewrite (Z.mul_assoc (Qnum q)), E. ring.
  - rewrite U, Z.abs_mul.
    rewrite (Z.abs_eq (2 ^ (1074 - j))) by (apply Z.pow_nonneg; lia).
    apply Z.lt_le_trans with (2 ^ 53 * 2 ^ (1074 - j)).
    + apply Z.mul_lt_mono_pos_r; [apply Z.pow_pos_nonneg; lia|assumption].
    + rewrite <- Z.pow_add_r by lia. apply Z.pow_le_mono_r; lia.
Qed.


Lemma Qred_inject_Z n : Qred (inject_Z n) = inject_Z n.
Proof.
  unfold Qred, inject_Z.
  generalize (Z.ggcd_gcd n 1) (Z.ggcd_correct_divisors n 1).
  destruct (Z.ggcd n 1) as (g, (a, b)). cbn [fst snd].
  rewrite Z.gcd_1_r. intros -> [Ha Hb].
  assert (a = n) by lia. assert (b = 1) by lia. subst a b. reflexivity.
Qed.

Lemma Qred_involutive q : Qred (Qred q) = Qred q.
Proof. apply Qred_complete, Qred_correct. Qed.

Lemma nearest_integer n : Z.abs n < 2 ^ 53 -> nearest (inject_Z n) = Finite (inject_Z n).
Proof.
  intros H. rewrite (@nearest_exact (inject_Z n) n 0); try lia.
  - now rewrite Qred_inject_Z.
  - cbn. lia.
Qed.

Lemma is_double_nearest q : is_double q = true -> nearest q = Finite (Qred q).
Proof.
  unfold is_double. destruct (nearest q) as [| | |r] eqn:E; try discriminate.
  intros H. apply Qeq_bool_eq in H.
  apply nearest_Finite_inv in E as [_ ->].
  f_equal. rewrite <- (Qred_complete _ _ H). symmetry. apply Qred_involutive.
Qed.

(** ** Numbers that are doubles *)



(** A double is a whole number of units that is a multiple of the unit of
    its own last place. *)
Lemma is_double_units q :
  is_double q = true ->
  exists z, Qnum q * 2 ^ 1074 = z * Zpos (Qden q)
            /\ (grid z | z) /\ Z.abs z < 2 ^ 2098 /\ units q = z.
Proof.
  unfold is_double. destruct (nearest q) as [| | |r] eqn:E; try discriminate.
  intros H. apply Qeq_bool_eq in H.
  apply nearest_Finite_inv in E as [B ->].
  rewrite Qred_correct in H. unfold Qeq in H. cbn [Qnum Qden] in H.
  exists (units q).
  assert (Eu : Qnum q * 2 ^ 1074 = units q * Zpos (Qden q)).
  { change (Zpos (2 ^ 1074)) with (2 ^ 1074) in H. lia. }
  split; [exact Eu|]. split; [|split; [assumption|reflexivity]].
  unfold grid.
  replace (Z.abs (units q)) with (Z.abs (Qnum q * 2 ^ 1074) / Zpos (Qden q)).
  2:{ rewrite Eu, Z.abs_mul, (Z.abs_eq (Zpos _)), Z.div_mul by lia. reflexivity. }
  unfold units, round_units, last_place.
  apply Z.divide_factor_r.
Qed.



(** The largest double below one. *)
Lemma double_below_one q :
  is_double q = true -> (q < 1)%Q -> (q <= 1 - (1 # 2 ^ 53))%Q.
Proof.
  intros D H. destruct (is_double_units _ D) as (z & E & [m Hm] & _ & _).
  assert (Hz : z < 2 ^ 1074).
  { unfold Qlt in H. cbn [Qnum Qden] in H.
    assert (P : 0 < 2 ^ 1074) by reflexivity. revert P E. generalize (2 ^ 1074).
    intros u P E. nia. }
  assert (Hz' : z <= 2 ^ 1074 - 2 ^ 1021).
  { destruct (Z_le_gt_dec z (2 ^ 1073)) as [L|G].
    - etransitivity; [exact L|]. vm_compute. discriminate.
    - assert (L2 : Z.log2 (Z.abs z) = 1073).
      { apply Z.log2_unique; [lia|]. rewrite Z.abs_eq by lia.
        change (1073 + 1) with 1074. lia. }
      unfold grid in Hm. rewrite L2 in Hm. change (Z.max 0 (1073 - 52)) with 1021 in Hm.
      change (2 ^ 1074) with (2 ^ 53 * 2 ^ 1021) in *.
      assert (P : 0 < 2 ^ 1021) by reflexivity. revert P Hm Hz. generalize (2 ^ 1021).
      intros u P Hm Hz. assert (m < 2 ^ 53) by nia. nia. }
  assert (Eq : (q == z # 2 ^ 1074)%Q).
  { unfold Qeq. cbn [Qnum Qden]. change (Zpos (2 ^ 1074)) with (2 ^ 1074). lia. }
  rewrite Eq.
  apply Qle_trans with ((2 ^ 1074 - 2 ^ 1021) # 2 ^ 1074)%Q;
    [apply units_le_Qle; exact Hz'|].
  apply Qle_bool_imp_le. vm_compute. reflexivity.
Qed.

(** ** Arithmetic on whole Numbers *)

Lemma add_integers a b :
  Z.abs (a + b) < 2 ^ 53 ->
  add (Finite (inject_Z a)) (Finite (inject_Z b)) = Finite (inject_Z (a + b)).
Proof.
  intros H. cbn [add]. rewrite <- inject_Z_plus. apply nearest_integer, H.
Qed.

Lemma mul_integers a b :
  Z.abs (a * b) < 2 ^ 53 ->
  mul (Finite (inject_Z a)) (Finite (inject_Z b)) = Finite (inject_Z (a * b)).
Proof.
  intros H. cbn [mul]. rewrite <- inject_Z_mult. apply nearest_integer, H.
Qed.

Lemma of_nat_exact i :
  Z.of_nat i < 2 ^ 53 -> of_nat i = Finite (inject_Z (Z.of_nat i)).
Proof. intros H. apply nearest_integer. lia. Qed.

Lemma zero_inject_Z d : d <> 0 -> zero (inject_Z d) = false.
Proof.
  intros H. unfold zero. destruct (Qeq_bool (inject_Z d) 0) eqn:E; [|reflexivity].
  apply Qeq_bool_eq in E. unfold Qeq in E. cbn in E. lia.
Qed.

Lemma truncate_quotient i d :
  0 <= i -> 0 < d -> truncate (inject_Z i / inject_Z d) = i / d.
Proof.
  intros Hi Hd. unfold truncate.
  assert (H : (0 <= inject_Z i / inject_Z d)%Q).
  { apply Qle_shift_div_l; [change 0%Q with (inject_Z 0); rewrite <- Zlt_Qlt; lia|].
    rewrite Qmult_0_l. change 0%Q with (inject_Z 0). rewrite <- Zle_Qle. lia. }
  apply Qle_bool_iff in H. rewrite H. symmetry. apply Zdiv_Qdiv.
Qed.

Lemma rem_integers i d :
  0 <= i < 2 ^ 53 -> 0 < d ->
  rem (Finite (inject_Z i)) (Finite (inject_Z d)) = Finite (inject_Z (i mod d)).
Proof.
  intros Hi Hd. cbn [rem]. rewrite zero_inject_Z by lia.
  rewrite truncate_quotient by lia.
  pose proof (Z.mod_pos_bound i d Hd).
  rewrite <- inject_Z_mult. unfold Qminus. rewrite <- inject_Z_opp, <- inject_Z_plus.
  replace (i + - (d * (i / d))) with (i mod d) by (rewrite Z.mod_eq by lia; ring).
  pose proof (Z.mod_le i d ltac:(lia) Hd).
  apply nearest_integer. lia.
Qed.

(** [Math.floor(index / 3)] is the whole quotient: the quotient of the
    division lies at or below a double short of the next integer. *)
Lemma floor_div_three i :
  0 <= i < 2 ^ 50 ->
  floor (div (Finite (inject_Z i)) (Finite 3)) = Finite (inject_Z (i / 3)).
Proof.
  intros Hi. cbn [div]. change (zero 3) with false. cbv iota.
  pose proof (Z.div_mod i 3 ltac:(lia)) as E.
  pose proof (Z.mod_pos_bound i 3 ltac:(lia)) as B.
  assert (Hk : 0 <= i / 3) by (apply Z.div_pos; lia).
  destruct (@nearest_between (inject_Z (i / 3)) ((4 * (i / 3) + 3) # 4) (inject_Z i / 3)
              (inject_Z (i / 3)) (Qred ((4 * (i / 3) + 3) # 4)))
    as (v & Ev & L & U).
  - change 0%Q with (inject_Z 0). rewrite <- Zle_Qle. exact Hk.
  - apply Qle_shift_div_l; [reflexivity|].
    change 3%Q with (inject_Z 3). rewrite <- inject_Z_mult, <- Zle_Qle. lia.
  - apply Qle_shift_div_r; [reflexivity|].
    unfold Qle. cbn [Qnum Qden Qmult inject_Z]. lia.
  - apply nearest_integer. lia.
  - apply (@nearest_exact _ (4 * (i / 3) + 3) 2); [lia|lia|reflexivity].
  - rewrite Ev. cbn [floor].
    rewrite Qred_correct in U.
    assert (Hf : Qfloor v = i / 3).
    { apply Z.le_antisymm.
      - apply Z.lt_succ_r. rewrite Zlt_Qlt.
        eapply Qle_lt_trans; [apply Qfloor_le|].
        eapply Qle_lt_trans; [exact U|].
        unfold Qlt. cbn [Qnum Qden inject_Z]. lia.
      - rewrite <- (Qfloor_Z (i / 3)). apply Qfloor_resp_le. exact L. }
    rewrite Hf. apply nearest_integer. lia.
Qed.

(** ** The jitter *)

Lemma jitter_range r :
  is_double r = true -> (0 <= r)%Q -> (r < 1)%Q ->
  exists j, mul (nearest r) (Finite 10) = Finite j
            /\ (0 <= j)%Q /\ (j <= 10 - (1 # 2 ^ 49))%Q.
Proof.
  intros D H0 H1. rewrite (is_double_nearest _ D). cbn [mul].
  pose proof (@double_below_one r D H1) as H2.
  destruct (@nearest_between 0 ((1 - (1 # 2 ^ 53)) * 10) (Qred r * 10) 0
              (10 - (1 # 2 ^ 49))) as (j & Ej & L & U).
  - apply Qle_refl.
  - rewrite Qred_correct. lra.
  - rewrite Qred_correct. lra.
  - reflexivity.
  - vm_compute. reflexivity.
  - exists j. auto.
Qed.

(** ** The error of a rounding *)

Lemma units_error q :
  (0 <= q)%Q -> 2 ^ 52 * Zpos (Qden q) <= Qnum q * 2 ^ 1074 ->
  2 ^ 53 * Z.abs (units q * Zpos (Qden q) - Qnum q * 2 ^ 1074)
  <= Qnum q * 2 ^ 1074.
Proof.
  intros H0 Hn. unfold units.
  assert (Hq : 0 <= Qnum q) by (unfold Qle in H0; cbn in H0; lia).
  set (n := Qnum q * 2 ^ 1074) in *. set (d := Zpos (Qden q)) in *.
  assert (Hd : 0 < d) by (subst d; lia).
  assert (Hn0 : 0 <= n) by (subst n; apply Z.mul_nonneg_nonneg; [lia|apply Z.pow_nonneg; lia]).
  pose proof (round_units_error n Hd) as E.
  pose proof (last_place_nonneg n d) as He.
  assert (B : d * 2 ^ (last_place n d + 52) <= n).
  { destruct (Z.eq_dec (last_place n d) 0) as [E0|E0].
    - rewrite E0. cbn [Z.add]. lia.
    - apply above_binade; lia. }
  rewrite Z.pow_add_r in B by lia.
  change (2 ^ 53) with (2 * 2 ^ 52).
  revert E B. generalize (round_units n d * d - n), (2 ^ last_place n d).
  assert (P : 0 < 2 ^ 52) by reflexivity. revert P. generalize (2 ^ 52).
  intros. nia.
Qed.

(** The Number value for a rational that is at least one differs from it
    by at most one part in [2 ^ 53]. *)
Lemma nearest_error q v :
  (1 <= q)%Q -> nearest q = Finite v ->
  (q * (1 - (1 # 2 ^ 53)) <= v)%Q /\ (v <= q * (1 + (1 # 2 ^ 53)))%Q.
Proof.
  intros H1 E. apply nearest_Finite_inv in E as [_ ->].
  assert (Hn : 2 ^ 52 * Zpos (Qden q) <= Qnum q * 2 ^ 1074).
  { unfold Qle in H1. cbn in H1.
    change (2 ^ 1074) with (2 ^ 52 * 2 ^ 1022).
    assert (P : 1 <= 2 ^ 1022) by (vm_compute; discriminate).
    assert (P' : 0 < 2 ^ 52) by reflexivity.
    pose proof (Pos2Z.is_pos (Qden q)) as Pd.
    revert P P' H1 Pd. generalize (2 ^ 1022), (2 ^ 52), (Zpos (Qden q)), (Qnum q).
    intros a b d n Pa Pb H1 Pd.
    assert (b * d <= b * n) by nia. assert (b * n * 1 <= b * n * a) by nia. lia. }
  pose proof (@units_error q ltac:(lra) Hn) as B.
  rewrite Qred_correct.
  unfold Qle. cbn [Qnum Qden Qmult Qplus Qminus Qopp].
  change (Zpos (2 ^ 1074)) with (2 ^ 1074). rewrite !Pos2Z.inj_mul.
  change (Zpos (2 ^ 53)) with (2 ^ 53). change (Z.pos (2 ^ 1074)) with (2 ^ 1074).
  revert B. generalize (units q), (Zpos (Qden q)) , (Pos2Z.is_pos (Qden q)), (Qnum q).
  assert (P : 0 < 2 ^ 1074) by reflexivity. revert P. generalize (2 ^ 1074).
  assert (P : 0 < 2 ^ 53) by reflexivity. revert P. generalize (2 ^ 53).
  intros w Pw u Pu z d Pd n B. split; nia.
Qed.

(** ** Whole minutes *)





Section Minutes.

Variable t : Q.
Hypothesis t_double : is_double t = true.
Hypothesis t_nonneg : (0 <= t)%Q.
Hypothesis t_bound : (t < inject_Z (2 ^ 53))%Q.





End Minutes.

End Rounding.

(** ** Overlay layout (C8, C9) *)

Lemma nth_error_map_from now random products :
  forall start index sp,
    nth_error (map_from now random start products) index = Some sp ->
    exists product,
      nth_error products index = Some product
      /\ sp = place now random (start + index) product.
Proof.
  induction products as [|p rest IH]; intros start index sp H.
  - destruct index; discriminate.
  - destruct index as [|index]; cbn in H.
    + injection H as <-. exists p. now rewrite Nat.add_0_r.
    + destruct (IH _ _ _ H) as (q & Hq & ->). exists q. split; [exact Hq|].
      now rewrite Nat.add_succ_r.
Qed.

Lemma nth_error_productsWithPositions now random products index sp :
  nth_error (productsWithPositions now random products) index = Some sp ->
  exists product,
    nth_error products index = Some product
    /\ sp = place now random index product.
Proof. apply nth_error_map_from. Qed.

(** An index of a list of fewer than [2 ^ 32] elements, the most an array
    holds. *)
Lemma array_index now random products index sp :
  (Z.of_nat (length products) < 2 ^ 32)%Z ->
  nth_error (productsWithPositions now random products) index = Some sp ->
  (Z.of_nat index < 2 ^ 32)%Z.
Proof.
  intros Hl Hn.
  destruct (nth_error_productsWithPositions _ _ _ _ Hn) as (p & Hp & _).
  assert (index < length products) by (apply nth_error_Some; congruence).
  lia.
Qed.

(** The column and the row of the layout, before the jitter: both are
    whole and computed without rounding. *)
Lemma column_base (index : nat) :
  (Z.of_nat index < 2 ^ 32)%Z ->
  Double.add (Double.Finite 10)
    (Double.mul (Double.rem (Double.of_nat index) (Double.Finite 3))
                (Double.Finite 30))
  = Double.Finite (inject_Z (10 + Z.of_nat (index mod 3) * 30)).
Proof.
  intros index_bound.
  assert (B : (2 ^ 32 < 2 ^ 53)%Z) by reflexivity.
  rewrite of_nat_exact by lia.
  change (Double.Finite 3) with (Double.Finite (inject_Z 3)).
  change (Double.Finite 30) with (Double.Finite (inject_Z 30)).
  change (Double.Finite 10) with (Double.Finite (inject_Z 10)).
  pose proof (Z.mod_pos_bound (Z.of_nat index) 3 ltac:(lia)) as M.
  rewrite rem_integers by lia.
  rewrite mul_integers by lia.
  rewrite add_integers by lia.
  now rewrite Nat2Z.inj_mod.
Qed.

Lemma row_base (index : nat) :
  (Z.of_nat index < 2 ^ 32)%Z ->
  Double.add (Double.Finite 10)
    (Double.mul (Double.floor (Double.div (Double.of_nat index)
                                          (Double.Finite 3)))
                (Double.Finite 25))
  = Double.Finite (inject_Z (10 + Z.of_nat (index / 3) * 25)).
Proof.
  intros index_bound.
  assert (B : (2 ^ 32 < 2 ^ 50)%Z) by reflexivity.
  assert (B' : (2 ^ 50 < 2 ^ 53)%Z) by reflexivity.
  rewrite of_nat_exact by lia.
  rewrite floor_div_three by lia.
  change (Double.Finite 25) with (Double.Finite (inject_Z 25)).
  change (Double.Finite 10) with (Double.Finite (inject_Z 10)).
  pose proof (Z.div_pos (Z.of_nat index) 3 ltac:(lia) ltac:(lia)) as D0.
  pose proof (Z.div_le_upper_bound (Z.of_nat index) 3 (Z.of_nat index)
                ltac:(lia) ltac:(lia)) as D1.
  rewrite mul_integers by lia.
  rewrite add_integers by lia.
  now rewrite Nat2Z.inj_div.
Qed.

(** A whole base below [2 ^ 52] and a jitter: the sum is rounded to a
    double between the base and the base plus ten, one part in [2 ^ 53]
    from the exact sum at most. *)
Lemma jittered (draw : Q) (base : Z) :
  Double.is_double draw = true -> (0 <= draw /\ draw < 1)%Q ->
  (1 <= base < 2 ^ 52)%Z ->
  exists jitter v,
    Double.mul (Double.nearest draw) (Double.Finite 10) = Double.Finite jitter
    /\ (0 <= jitter /\ jitter < 10)%Q
    /\ Double.add (Double.Finite (inject_Z base))
         (Double.mul (Double.nearest draw) (Double.Finite 10))
       = Double.Finite v
    /\ Double.nearest (inject_Z base + jitter) = Double.Finite v
    /\ (inject_Z base <= v /\ v <= inject_Z (base + 10))%Q
    /\ rounded (inject_Z base + jitter) v.
Proof.
  intros draw_double [H0 H1] Hb.
  destruct (@jitter_range draw draw_double H0 H1) as (j & Ej & J0 & J1).
  assert (B : (2 ^ 52 + 10 < 2 ^ 53)%Z) by reflexivity.
  destruct (@nearest_between (inject_Z base) (inject_Z (base + 10))
              (inject_Z base + j) (inject_Z base) (inject_Z (base + 10)))
    as (v & Ev & L & U).
  - change 0%Q with (inject_Z 0). rewrite <- Zle_Qle. lia.
  - lra.
  - rewrite inject_Z_plus. change (inject_Z 10) with 10%Q.
    assert ((10 - (1 # 2 ^ 49) <= 10)%Q) by (apply Qle_bool_imp_le; reflexivity).
    lra.
  - apply nearest_integer. lia.
  - apply nearest_integer. lia.
  - exists j, v. split; [exact Ej|]. split.
    { split; [exact J0|]. eapply Qle_lt_trans; [exact J1|]. reflexivity. }
    split; [rewrite Ej; exact Ev|]. split; [exact Ev|]. split; [now split|].
    apply nearest_error; [|exact Ev].
    assert ((1 <= inject_Z base)%Q).
    { change 1%Q with (inject_Z 1). rewrite <- Zle_Qle. lia. }
    lra.
Qed.

(** The position of the product at [index], for draws that are doubles of
    the unit interval. *)
Lemma position_value (index : nat) (draw_x draw_y : Q) :
  (Z.of_nat index < 2 ^ 32)%Z ->
  Double.is_double draw_x = true -> (0 <= draw_x /\ draw_x < 1)%Q ->
  Double.is_double draw_y = true -> (0 <= draw_y /\ draw_y < 1)%Q ->
  exists jitter_x jitter_y vx vy,
    Double.mul (Double.nearest draw_x) (Double.Finite 10)
    = Double.Finite jitter_x
    /\ Double.mul (Double.nearest draw_y) (Double.Finite 10)
       = Double.Finite jitter_y
    /\ (0 <= jitter_x /\ jitter_x < 10)%Q
    /\ (0 <= jitter_y /\ jitter_y < 10)%Q
    /\ position_x index draw_x = Double.Finite vx
    /\ position_y index draw_y = Double.Finite vy
    /\ Double.nearest (inject_Z (10 + Z.of_nat (index mod 3) * 30) + jitter_x)
       = Double.Finite vx
    /\ Double.nearest (inject_Z (10 + Z.of_nat (index / 3) * 25) + jitter_y)
       = Double.Finite vy
    /\ rounded (inject_Z (10 + Z.of_nat (index mod 3) * 30) + jitter_x) vx
    /\ rounded (inject_Z (10 + Z.of_nat (index / 3) * 25) + jitter_y) vy
    /\ (inject_Z (10 + Z.of_nat (index mod 3) * 30) <= vx
        /\ vx <= inject_Z (20 + Z.of_nat (index mod 3) * 30))%Q
    /\ (inject_Z (10 + Z.of_nat (index / 3) * 25) <= vy
        /\ vy <= inject_Z (20 + Z.of_nat (index / 3) * 25))%Q.
Proof.
  intros Hi Dx Ux Dy Uy.
  assert (B : (2 ^ 32 * 30 < 2 ^ 52)%Z) by reflexivity.
  pose proof (Nat.mod_upper_bound index 3 ltac:(discriminate)) as M.
  assert (R : (Z.of_nat (index / 3) <= Z.of_nat index)%Z).
  { apply Nat2Z.inj_le, Nat.Div0.div_le_upper_bound. lia. }
  destruct (@jittered draw_x (10 + Z.of_nat (index mod 3) * 30) Dx Ux ltac:(lia))
    as (jx & vx & Ejx & Jx & Ex & Nx & Bx & Rx).
  destruct (@jittered draw_y (10 + Z.of_nat (index / 3) * 25) Dy Uy ltac:(lia))
    as (jy & vy & Ejy & Jy & Ey & Ny & By & Ry).
  exists jx, jy, vx, vy.
  split; [exact Ejx|]. split; [exact Ejy|]. split; [exact Jx|].
  split; [exact Jy|].
  split; [unfold position_x; rewrite (@column_base index Hi); exact Ex|].
  split; [unfold position_y; rewrite (@row_base index Hi); exact Ey|].
  split; [exact Nx|]. split; [exact Ny|]. split; [exact Rx|].
  split; [exact Ry|].
  replace (20 + Z.of_nat (index mod 3) * 30)%Z
    with (10 + Z.of_nat (index mod 3) * 30 + 10)%Z by ring.
  replace (20 + Z.of_nat (index / 3) * 25)%Z
    with (10 + Z.of_nat (index / 3) * 25 + 10)%Z by ring.
  split; assumption.
Qed.

(** The rounding on known values: one tenth and the sum of one tenth and
    two tenths; a tie goes to the even significand, upward and downward;
    the largest double and the overflow past it; the least double and the
    ties below and above it; and the whole minutes of [10 ^ 19] seconds,
    where the quotient is rounded. *)
Lemma rounding_examples :
  Double.nearest (1 # 10) = Double.Finite (3602879701896397 # 2 ^ 55)
  /\ Double.add (Double.nearest (1 # 10)) (Double.nearest (2 # 10))
     = Double.Finite (1351079888211149 # 2 ^ 52)
  /\ Double.nearest (inject_Z (2 ^ 53 + 1)) = Double.Finite (inject_Z (2 ^ 53))
  /\ Double.nearest (inject_Z (2 ^ 53 + 3))
     = Double.Finite (inject_Z (2 ^ 53 + 4))
  /\ Double.nearest (inject_Z (2 ^ 1024 - 2 ^ 970 - 1))
     = Double.Finite (inject_Z (2 ^ 1024 - 2 ^ 971))
  /\ Double.nearest (inject_Z (2 ^ 1024 - 2 ^ 970)) = Double.PosInf
  /\ Double.nearest (1 # 2 ^ 1075) = Double.Finite 0
  /\ Double.nearest (3 # 2 ^ 1075) = Double.Finite (1 # 2 ^ 1073)
  /\ Double.floor (Double.div (Double.nearest (inject_Z (10 ^ 19)))
                              (Double.Finite 60))
     = Double.Finite 166666666666666656.
Proof. repeat split; vm_compute; reflexivity. Qed.

(** The largest draw puts the first product at the far end of its column
    and of its row, and the second product, with the least draw, at the
    near end of the next column: the two are then twenty apart. *)
Lemma largest_draw_reaches_the_end :
  position_x 0 (1 - (1 # 2 ^ 53)) = Double.Finite 20
  /\ position_y 0 (1 - (1 # 2 ^ 53)) = Double.Finite 20
  /\ position_x 2 (1 - (1 # 2 ^ 53)) = Double.Finite 80
  /\ position_y 11 (1 - (1 # 2 ^ 53)) = Double.Finite 95
  /\ position_x 1 0 = Double.Finite 40.
Proof. repeat split; vm_compute; reflexivity. Qed.

(** C8. The product at [index] of a scan result is placed at
    [x = 10 + (index mod 3) * 30 + jitter_x] and
    [y = 10 + floor(index / 3) * 25 + jitter_y], each sum rounded to the
    nearest double (it differs from the exact sum by one part in [2 ^ 53]
    at most).  The two jitters are ten times two separate draws of the
    random source (draws [2 * index] and [2 * index + 1] of the scan), as
    doubles, and lie in [0, 10).  For the indices 0 to 5 this puts [x]
    into one of the three columns 10..20, 40..50, 70..80 and [y] into one
    of the two rows 10..20, 35..45, the far end of each included: the sum
    with the largest jitter rounds up to it.  The result is an array, of
    fewer than [2 ^ 32] products, and a draw is a double of the unit
    interval without its upper end. *)
Theorem overlay_positions_bucketed
        (now : nat -> N) (random : nat -> Q) (products : list Product)
        (index : nat) (sp : ScannedProduct) :
  (Z.of_nat (length products) < 2 ^ 32)%Z ->
  (forall k, Double.is_double (random k) = true
             /\ (0 <= random k /\ random k < 1)%Q) ->
  nth_error (productsWithPositions now random products) index = Some sp ->
  exists jitter_x jitter_y vx vy,
    Double.mul (Double.nearest (random (2 * index)%nat)) (Double.Finite 10)
    = Double.Finite jitter_x
    /\ Double.mul (Double.nearest (random (2 * index + 1)%nat))
                  (Double.Finite 10)
       = Double.Finite jitter_y
    /\ (0 <= jitter_x /\ jitter_x < 10)%Q
    /\ (0 <= jitter_y /\ jitter_y < 10)%Q
    /\ x (position sp)
       = Double.nearest
           (10 + inject_Z (Z.of_nat (index mod 3)) * 30 + jitter_x)
    /\ y (position sp)
       = Double.nearest
           (10 + inject_Z (Z.of_nat (index / 3)) * 25 + jitter_y)
    /\ x (position sp) = Double.Finite vx
    /\ y (position sp) = Double.Finite vy
    /\ rounded (10 + inject_Z (Z.of_nat (index mod 3)) * 30 + jitter_x) vx
    /\ rounded (10 + inject_Z (Z.of_nat (index / 3)) * 25 + jitter_y) vy
    /\ (index <= 5 ->
        ((index = 0 \/ index = 3) /\ (10 <= vx /\ vx <= 20)%Q
         \/ (index = 1 \/ index = 4) /\ (40 <= vx /\ vx <= 50)%Q
         \/ (index = 2 \/ index = 5) /\ (70 <= vx /\ vx <= 80)%Q)
        /\ (index <= 2 /\ (10 <= vy /\ vy <= 20)%Q
            \/ 3 <= index /\ (35 <= vy /\ vy <= 45)%Q)).
Proof.
  intros Hl Hr Hn.
  pose proof (@array_index now random products index sp Hl Hn) as Hi.
  destruct (nth_error_productsWithPositions _ _ _ _ Hn) as (p & _ & ->).
  cbn [place position x y].
  destruct (Hr (2 * index)) as [Dx Ux]. destruct (Hr (2 * index + 1)) as [Dy Uy].
  destruct (@position_value index (random (2 * index)%nat)
              (random (2 * index + 1)%nat) Hi Dx Ux Dy Uy)
    as (jx & jy & vx & vy & Ejx & Ejy & Jx & Jy & Ex & Ey & Nx & Ny
        & Rx & Ry & Bx & By).
  assert (Qx : (10 + inject_Z (Z.of_nat (index mod 3)) * 30 + jx
                == inject_Z (10 + Z.of_nat (index mod 3) * 30) + jx)%Q).
  { rewrite inject_Z_plus, inject_Z_mult. reflexivity. }
  assert (Qy : (10 + inject_Z (Z.of_nat (index / 3)) * 25 + jy
                == inject_Z (10 + Z.of_nat (index / 3) * 25) + jy)%Q).
  { rewrite inject_Z_plus, inject_Z_mult. reflexivity. }
  exists jx, jy, vx, vy.
  split; [exact Ejx|]. split; [exact Ejy|]. split; [exact Jx|].
  split; [exact Jy|].
  split; [rewrite (@nearest_proper _ _ Qx), Nx; exact Ex|].
  split; [rewrite (@nearest_proper _ _ Qy), Ny; exact Ey|].
  split; [exact Ex|]. split; [exact Ey|].
  split; [unfold rounded in *; rewrite Qx; exact Rx|].
  split; [unfold rounded in *; rewrite Qy; exact Ry|].
  intros H5.
  assert (Hc : index = 0 \/ index = 1 \/ index = 2
               \/ index = 3 \/ index = 4 \/ index = 5) by lia.
  destruct Hc as [-> | [-> | [-> | [-> | [-> | ->]]]]];
    cbn in Bx, By;
    (split;
     [ first [ left; split; [auto | exact Bx]
             | right; left; split; [auto | exact Bx]
             | right; right; split; [auto | exact Bx] ]
     | first [ left; split; [lia | exact By]
             | right; split; [lia | exact By] ] ]).
Qed.

Lemma overlay_positions_bucketed_witness :
  x (position (place clock half_jitter 4 bag)) = Double.Finite 45
  /\ y (position (place clock half_jitter 4 bag)) = Double.Finite 40.
Proof.
  destruct (@overlay_positions_bucketed clock half_jitter
              [bag; bag; bag; bag; bag] 4
              (place clock half_jitter 4 bag)
              eq_refl
              (fun k => conj eq_refl
                          (conj (Qle_bool_imp_le 0 (1 # 2) eq_refl) eq_refl))
              eq_refl)
    as (jx & jy & vx & vy & _ & _ & _ & _ & _ & _ & Ex & Ey & _).
  split; [rewrite Ex | rewrite Ey]; vm_compute in Ex, Ey;
    [injection Ex as <- | injection Ey as <-]; reflexivity.
Defined.

(** ** Viewport bounds (C9) *)




(** ** Validation of the entries (C4, C10) *)

Lemma get_name_is_candidate p n c :
  get p (js "name") = Some n ->
  get p (js "category") = Some c ->
  is_candidate p = true.
Proof.
  intros Hn Hc. unfold is_candidate, has. rewrite Hn, Hc.
  destruct p as [| | |[|u s]| |]; try discriminate; reflexivity.
Qed.

Lemma filter_drops_non_candidate (before after : list json) (e : json) :
  is_candidate e = false ->
  filter is_candidate (before ++ e :: after) = filter is_candidate (before ++ after).
Proof.
  intros H. rewrite !filter_app. cbn. now rewrite H.
Qed.

Lemma missing_member_not_candidate e :
  has e (js "name") = false \/ has e (js "category") = false ->
  is_candidate e = false.
Proof.
  intros [H | H]; unfold is_candidate; rewrite H;
    destruct e; try reflexivity; now rewrite ?andb_false_r.
Qed.

Section Validation.

Variable Number_toString : Q -> jsstring.

(** C4. An entry with a name and a category but no confidence passes the
    filter and becomes a product with confidence 0.8 whose URL is the fixed
    search prefix followed by the URL-encoded name.  An entry that lacks a
    name or a category is dropped and the batch is what it would be without
    it.  For the answer
    [[{"name":"Black leather crossbody bag","category":"Fashion"}]] the
    handler replies with the one product [bag]: confidence 0.8 and the name
    encoded into its URL. *)
Theorem named_entry_becomes_product :
  (forall (p n c : json) (e : jsstring),
      get p (js "name") = Some n ->
      get p (js "category") = Some c ->
      get p (js "confidence") = None ->
      encode_value Number_toString (Some n) = Some e ->
      is_candidate p = true
      /\ to_product Number_toString p
         = Some {| name := Some n; category := Some c;
                   confidence := default_confidence;
                   searchUrl := search_prefix ++ e |}
      /\ validate Number_toString [p]
         = [{| name := Some n; category := Some c;
               confidence := default_confidence;
               searchUrl := search_prefix ++ e |}])
  /\ (forall (before after : list json) (e : json),
         has e (js "name") = false \/ has e (js "category") = false ->
         validate Number_toString (before ++ e :: after)
         = validate Number_toString (before ++ after))
  /\ parse_content Number_toString (JStr bag_answer) = [bag]
  /\ serve Number_toString post_request (Some (js "key"))
           (Replied 200 (Some (completion (JStr bag_answer))))
     = ({| status := 200; body := ProductsBody [bag] |}, 1)
  /\ confidence bag = JNum (Num (8 # 10))
  /\ encodeURIComponent (js "Black leather crossbody bag")
     = Some (js "Black%20leather%20crossbody%20bag")
  /\ searchUrl bag
     = js "https://www.amazon.com/s?k=" ++ js "Black%20leather%20crossbody%20bag".
Proof.
  split; [|split; [|repeat split]].
  - intros p n c e Hn Hc Hf He.
    assert (Hp : to_product Number_toString p
                 = Some {| name := Some n; category := Some c;
                           confidence := default_confidence;
                           searchUrl := search_prefix ++ e |}).
    { unfold to_product, confidence_or_default. now rewrite Hn, Hc, Hf, He. }
    pose proof (@get_name_is_candidate p n c Hn Hc) as Hcand.
    repeat split; try assumption.
    unfold validate. cbn [filter]. rewrite Hcand. cbn [map_products].
    now rewrite Hp.
  - intros before after e H. unfold validate.
    now rewrite (@filter_drops_non_candidate before after e
                   (@missing_member_not_candidate e H)).
Qed.

(** C10. An entry with a name, a category and a confidence that is falsy
    (zero, [NaN], [null], [false] or the empty string) becomes a product
    with confidence 0.8, the very product an entry without any confidence
    would have given: the supplied value is lost. *)
Theorem falsy_confidence_defaulted
        (p n c v : json) (e : jsstring) :
  get p (js "name") = Some n ->
  get p (js "category") = Some c ->
  get p (js "confidence") = Some v ->
  truthy v = false ->
  encode_value Number_toString (Some n) = Some e ->
  to_product Number_toString p
  = Some {| name := Some n; category := Some c;
            confidence := default_confidence;
            searchUrl := search_prefix ++ e |}
  /\ confidence_or_default p = JNum (Num (8 # 10))
  /\ (forall p', get p' (js "name") = Some n ->
                 get p' (js "category") = Some c ->
                 get p' (js "confidence") = None ->
                 to_product Number_toString p' = to_product Number_toString p)
  /\ truthy (JNum (Num 0)) = false
  /\ truthy (JNum NaN) = false.
Proof.
  intros Hn Hc Hv Hf He.
  assert (Hd : confidence_or_default p = default_confidence).
  { unfold confidence_or_default. now rewrite Hv, Hf. }
  assert (Hp : to_product Number_toString p
               = Some {| name := Some n; category := Some c;
                         confidence := default_confidence;
                         searchUrl := search_prefix ++ e |}).
  { unfold to_product. now rewrite Hn, Hc, Hd, He. }
  repeat split; try assumption.
  intros p' Hn' Hc' Hf'. rewrite Hp.
  unfold to_product, confidence_or_default. now rewrite Hn', Hc', Hf', He.
Qed.

End Validation.

Lemma named_entry_becomes_product_witness :
  to_product no_number_printer mug_entry
  = Some {| name := Some (JStr (js "Mug")); category := Some (JStr (js "Home"));
            confidence := default_confidence;
            searchUrl := search_prefix ++ js "Mug" |}
  /\ validate no_number_printer [mug_entry; JStr (js "stray"); mug_entry]
     = validate no_number_printer [mug_entry; mug_entry].
Proof.
  split.
  - exact (proj1 (proj2 (proj1 (named_entry_becomes_product no_number_printer)
                           mug_entry (JStr (js "Mug")) (JStr (js "Home"))
                           (js "Mug") eq_refl eq_refl eq_refl eq_refl))).
  - exact (proj1 (proj2 (named_entry_becomes_product no_number_printer))
                 [mug_entry] [mug_entry] (JStr (js "stray"))
                 (or_introl eq_refl)).
Defined.

Lemma falsy_confidence_defaulted_witness :
  to_product no_number_printer mug_zero_entry
  = Some {| name := Some (JStr (js "Mug")); category := Some (JStr (js "Home"));
            confidence := default_confidence;
            searchUrl := search_prefix ++ js "Mug" |}
  /\ to_product no_number_printer mug_entry
     = to_product no_number_printer mug_zero_entry.
Proof.
  pose proof (@falsy_confidence_defaulted no_number_printer
                mug_zero_entry (JStr (js "Mug")) (JStr (js "Home"))
                (JNum (Num 0)) (js "Mug")
                eq_refl eq_refl eq_refl eq_refl eq_refl) as H.
  split; [exact (proj1 H)|].
  exact (proj1 (proj2 (proj2 H)) mug_entry eq_refl eq_refl eq_refl).
Defined.

(** ** Service failures (C5) *)



(** C5 as stated does not hold of the page.  The edge function answers a
    rate-limited gateway with status 429 and the rate-limit message, but
    the page reads neither: it shows the message of the error that
    [invoke] reports.  When that message does not quote the reply, the
    scan ends as failed without the reason of the status, and a reply
    for an exhausted quota reported under the same message leaves the page
    in the very same state. *)
Lemma failure_reason_not_shown :
  fst (serve no_number_printer post_request (Some (js "key")) (Replied 429 None))
  = {| status := 429; body := ErrorBody (Text rate_limit_message) |}
  /\ fst (serve no_number_printer post_request (Some (js "key")) (Replied 402 None))
     = {| status := 402; body := ErrorBody (Text quota_message) |}
  /\ session_status
       (settle clock no_jitter 0 (InvokeError fixed_client_message) scan_in_progress)
     = failed
  /\ option_map description
       (hd_error (toasts (settle clock no_jitter 0
                            (InvokeError fixed_client_message) scan_in_progress)))
     = Some fixed_client_message
  /\ ~ failure_tells_reason
         {| status := 429; body := ErrorBody (Text rate_limit_message) |}
         scan_in_progress 0 fixed_client_message clock no_jitter
  /\ ~ failure_tells_reason
         {| status := 402; body := ErrorBody (Text quota_message) |}
         scan_in_progress 0 fixed_client_message clock no_jitter.
Proof.
  split; [reflexivity|]. split; [reflexivity|]. split; [reflexivity|].
  split; [reflexivity|].
  split; intros H; destruct (H eq_refl) as (_ & t & Ht & Hd);
    vm_compute in Ht; injection Ht as <-; vm_compute in Hd; discriminate Hd.
Qed.



(** ** Malformed answers (C6) *)

(** C6. A model answer that does not parse as an array, be it for a parse
    error, for a value of another kind or for not being text at all, gives
    the empty product list, and the edge function still replies with
    success (status 200 and no products); the literal answer
    [not an array] is such an answer.  The page, on receiving a reply
    without products for the scan in progress, ends it as succeeded with
    zero products and the plain toast that says none were found, not the
    destructive one of a failure. *)
Theorem malformed_answer_is_empty_success
        (Number_toString : Q -> jsstring) (content aiResponse : json) (st : N) :
  parses_as_array content = false ->
  aiResponse <> JNull ->
  content_of aiResponse = content ->
  ok st = true ->
  parse_content Number_toString content = []
  /\ after_fetch Number_toString (Replied st (Some aiResponse))
     = {| status := 200; body := ProductsBody [] |}
  /\ JSON_parse (js "not an array") = None
  /\ parses_as_array (JStr (js "not an array")) = false
  /\ (forall (route : jsstring) (s : State) (k : nat) (request : Invocation)
             (now : nat -> N) (random : nat -> Q),
         reachable route s ->
         nth_error (in_flight s) k = Some request ->
         let s' := settle now random k (InvokeData (Some [])) s in
         session_status s' = succeeded
         /\ session_status s' <> failed
         /\ isScanning s' = false
         /\ scannedProducts s' = []
         /\ hd_error (toasts s') = Some none_toast
         /\ variant none_toast = Default).
Proof.
  intros Hp Hn Hc Hs.
  assert (E : parse_content Number_toString content = []).
  { unfold parses_as_array in Hp. unfold parse_content.
    destruct content as [| | |c| |]; try reflexivity.
    cbn zeta. destruct (JSON_parse (strip_fences (trim c))) as [[]|];
      try reflexivity; discriminate. }
  split; [exact E|]. split.
  { cbn [after_fetch]. rewrite Hs. cbn [negb]. rewrite Hc, E.
    destruct aiResponse; try reflexivity. now elim Hn. }
  split; [reflexivity|]. split; [reflexivity|].
  intros route s k request now random Hr Hk. cbn zeta.
  pose proof (reachable_single_flight Hr) as Hf. unfold single_flight in Hf.
  destruct (isScanning s) eqn:Hsc.
  - destruct Hf as (_ & Hsp & _).
    unfold settle. rewrite Hk. cbn. rewrite Hsp.
    repeat split. discriminate.
  - rewrite Hf in Hk. destruct k; discriminate.
Qed.

Lemma malformed_answer_is_empty_success_witness :
  after_fetch no_number_printer
    (Replied 200 (Some (completion (JStr (js "not an array")))))
  = {| status := 200; body := ProductsBody [] |}.
Proof.
  assert (Hn : completion (JStr (js "not an array")) <> JNull) by discriminate.
  exact (proj1 (proj2 (@malformed_answer_is_empty_success no_number_printer
                         (JStr (js "not an array"))
                         (completion (JStr (js "not an array"))) 200
                         eq_refl Hn eq_refl eq_refl))).
Defined.

(** ** Identifier extraction (C3) *)

(** *** How the matcher behaves on the shapes the patterns have *)

Lemma strip_prefix_app (m s : jsstring) : strip_prefix m (m ++ s) = Some s.
Proof.
  induction m as [|a m IH]; [reflexivity|]. cbn. now rewrite N.eqb_refl.
Qed.

Lemma strip_prefix_length (m s r : jsstring) :
  strip_prefix m s = Some r -> length s = length m + length r.
Proof.
  revert s. induction m as [|a m IH]; intros s H; cbn in *.
  - now injection H as ->.
  - destruct s as [|b s]; [discriminate|].
    destruct (N.eqb a b); [|discriminate]. cbn. now rewrite (IH _ H).
Qed.

Lemma take_class_app (p : N -> bool) (i s : jsstring) :
  forallb p i = true -> take_class p (length i) (i ++ s) = Some s.
Proof.
  induction i as [|c i IH]; intros H; [reflexivity|].
  cbn in *. apply andb_true_iff in H as [-> H]. now apply IH.
Qed.

Lemma take_class_length (p : N -> bool) (n : nat) (s r : jsstring) :
  take_class p n s = Some r -> length s = n + length r.
Proof.
  revert s. induction n as [|n IH]; intros s H; cbn in *.
  - now injection H as ->.
  - destruct s as [|c s]; [discriminate|].
    destruct (p c); [|discriminate]. cbn. now rewrite (IH _ H).
Qed.

(** A pattern fails when its continuation fails on every remainder that is
    at least [min_length] shorter than the input. *)
Lemma run_needs_min_length (r : re) :
  forall pos cap s k,
    (forall pos' cap' s',
        length s' + min_length r <= length s -> k pos' cap' s' = None) ->
    run r pos cap s k = None.
Proof.
  induction r as [l|p n|p|a IHa|a IHa b IHb|a IHa b IHb|a IHa| |];
    intros pos cap s k Hk; cbn [run min_length] in *.
  - destruct (strip_prefix l s) as [s'|] eqn:E; [|reflexivity].
    apply Hk. rewrite (strip_prefix_length _ _ E). lia.
  - destruct (take_class p n s) as [s'|] eqn:E; [|reflexivity].
    apply Hk. rewrite (take_class_length _ _ _ E). lia.
  - revert pos Hk. induction s as [|c s IH]; intros pos Hk.
    + apply Hk. cbn. lia.
    + destruct (p c).
      * rewrite IH; [apply Hk; lia|].
        intros pos' cap' s' H. apply Hk. cbn. lia.
      * apply Hk. lia.
  - rewrite IHa; [apply Hk; lia|].
    intros pos' cap' s' H. apply Hk. lia.
  - apply IHa. intros pos' cap' s' H. apply IHb.
    intros pos'' cap'' s'' H'. apply Hk. lia.
  - rewrite IHa; [apply IHb|]; intros pos' cap' s' H; apply Hk; lia.
  - apply IHa. intros pos' cap' s' H. now apply Hk.
  - destruct pos; [apply Hk; lia | reflexivity].
  - destruct s; [apply Hk; cbn; lia | reflexivity].
Qed.

Lemma match_at_too_short (r : re) (pos : nat) (s : jsstring) :
  length s < min_length r -> match_at r pos s = None.
Proof.
  intros H. apply run_needs_min_length. intros; lia.
Qed.

Lemma search_from_too_short (r : re) :
  forall s pos, length s < min_length r -> search_from r pos s = None.
Proof.
  induction s as [|c s IH]; intros pos H; cbn [search_from];
    rewrite (match_at_too_short r pos _ H); [reflexivity|].
  apply IH. cbn in H. lia.
Qed.

(** A literal followed by the group of [n] class characters, matched where
    the literal stands. *)
Lemma match_at_marker (m i post : jsstring) (p : N -> bool) (pos : nat) :
  forallb p i = true ->
  match_at (cat [Lit m; Group (Rep p (length i))]) pos (m ++ i ++ post)
  = Some (Some i, post).
Proof.
  intros H. unfold match_at. cbn [cat run].
  rewrite strip_prefix_app, (take_class_app p i post H).
  replace (pos + length m + length i - (pos + length m)) with (length i) by lia.
  now rewrite firstn_app, Nat.sub_diag, firstn_all, app_nil_r.
Qed.

(** Searching moves on over a character at which the pattern cannot
    start. *)
Lemma search_from_skip (r : re) (pos : nat) (c : N) (s : jsstring) :
  match_at r pos (c :: s) = None ->
  search_from r pos (c :: s) = search_from r (S pos) s.
Proof. intros H. cbn [search_from]. now rewrite H. Qed.

Lemma search_from_found (r : re) (pos : nat) (s rest : jsstring) cap :
  match_at r pos s = Some (cap, rest) ->
  search_from r pos s = Some (pos, cap, rest).
Proof. intros H. destruct s; cbn [search_from]; now rewrite H. Qed.

Lemma lit_first_mismatch (a : N) (m : jsstring) (b : re) pos cap c s k :
  N.eqb a c = false ->
  run (Seq (Lit (a :: m)) b) pos cap (c :: s) k = None.
Proof. intros H. cbn [run strip_prefix]. now rewrite H. Qed.

Lemma patterns_start_with_y (r : re) (pos : nat) (c : N) (s : jsstring) :
  In r patterns -> not_y c = true -> match_at r pos (c :: s) = None.
Proof.
  intros Hin Hc. unfold not_y in Hc. apply negb_true_iff in Hc.
  rewrite N.eqb_sym in Hc.
  unfold patterns in Hin. cbn [In] in Hin.
  repeat (destruct Hin as [<- | Hin];
          [unfold match_at; apply (@lit_first_mismatch 121%N); exact Hc|]).
  contradiction.
Qed.

Lemma search_from_skip_prefix (r : re) (pre s : jsstring) :
  In r patterns -> forallb not_y pre = true ->
  forall pos, search_from r pos (pre ++ s) = search_from r (pos + length pre) s.
Proof.
  intros Hin. induction pre as [|c pre IH]; intros H pos; cbn [app length].
  - now rewrite Nat.add_0_r.
  - cbn in H. apply andb_true_iff in H as [Hc H].
    rewrite search_from_skip by (apply patterns_start_with_y; assumption).
    rewrite IH by exact H. f_equal. lia.
Qed.

Lemma run_marker (m i post : jsstring) (p : N -> bool) pos cap k :
  forallb p i = true ->
  run (cat [Lit m; Group (Rep p (length i))]) pos cap (m ++ i ++ post) k
  = k (pos + length m + length i) (Some i) post.
Proof.
  intros H. cbn [cat run].
  rewrite strip_prefix_app, (take_class_app p i post H).
  replace (pos + length m + length i - (pos + length m)) with (length i) by lia.
  now rewrite firstn_app, Nat.sub_diag, firstn_all, app_nil_r.
Qed.

Lemma run_star_cons (p : N -> bool) (c : N) (s : jsstring) pos cap k :
  run (Star p) pos cap (c :: s) k
  = if p c then
      match run (Star p) (S pos) cap s k with
      | Some m => Some m
      | None => k pos cap (c :: s)
      end
    else k pos cap (c :: s).
Proof. reflexivity. Qed.

(** A greedy star that can run over [a] does so when the rest of the
    pattern succeeds further on. *)
Lemma run_star_over (p : N -> bool) (a b : jsstring) cap k ans :
  forallb p a = true ->
  forall pos,
    run (Star p) (pos + length a) cap b k = Some ans ->
    run (Star p) pos cap (a ++ b) k = Some ans.
Proof.
  intros Ha. induction a as [|c a IH]; intros pos H.
  - now rewrite Nat.add_0_r in H.
  - cbn in Ha. apply andb_true_iff in Ha as [Hc Ha].
    cbn [app]. rewrite run_star_cons, Hc.
    rewrite (IH Ha (S pos)); [reflexivity|].
    rewrite <- H. f_equal. cbn. lia.
Qed.

Lemma id_chars_are_dots (i : jsstring) :
  forallb id_char i = true -> forallb dot i = true.
Proof.
  induction i as [|c i IH]; [reflexivity|]. cbn [forallb].
  intros H. apply andb_true_iff in H as [Hc H]. rewrite (IH H), andb_true_r.
  unfold id_char, in_range in Hc. unfold dot, is_line_terminator.
  repeat match goal with
         | |- context [N.eqb c ?n] => destruct (N.eqb_spec c n); [subst c; discriminate Hc|]
         end.
  reflexivity.
Qed.

Lemma run_seq (a b : re) pos cap s k :
  run (Seq a b) pos cap s k
  = run a pos cap s (fun pos' cap' s' => run b pos' cap' s' k).
Proof. reflexivity. Qed.

Lemma run_lit_app (m s : jsstring) pos cap k :
  run (Lit m) pos cap (m ++ s) k = k (pos + length m) cap s.
Proof. cbn [run]. now rewrite strip_prefix_app. Qed.

(** The pattern for extra query parameters, on a URL that ends with the
    [v] parameter. *)
Lemma match_at_watch_params (q i : jsstring) (pos : nat) :
  forallb dot q = true -> well_formed_id i ->
  match_at watch_params_pattern pos
           (js "youtube.com/watch?" ++ q ++ js "v=" ++ i)
  = Some (Some i, []).
Proof.
  intros Hq [Hl Hi]. unfold match_at, watch_params_pattern.
  change (cat [Lit (js "youtube.com/watch?"); Star dot; Lit (js "v=");
               Group (Rep id_char 11)])
    with (Seq (Lit (js "youtube.com/watch?"))
              (Seq (Star dot) (cat [Lit (js "v="); Group (Rep id_char 11)]))).
  rewrite run_seq, run_lit_app, run_seq.
  apply run_star_over; [exact Hq|].
  change (js "v=" ++ i) with (118%N :: 61%N :: i).
  rewrite run_star_cons. change (dot 118) with true. cbv iota.
  rewrite (@run_needs_min_length (Star dot)).
  - replace (118%N :: 61%N :: i) with (js "v=" ++ i ++ [])
      by now rewrite app_nil_r.
    rewrite <- Hl, run_marker by exact Hi. reflexivity.
  - intros pos' cap' s' H.
    apply (@run_needs_min_length (cat [Lit (js "v="); Group (Rep id_char 11)])).
    intros pos'' cap'' s'' H'. cbn in H, H'. lia.
Qed.

Lemma first_capture_at (before after : list re) (r : re) (url i : jsstring) :
  Forall (fun p => str_match url p = None) before ->
  str_match url r = Some (Some i) ->
  i <> [] ->
  first_capture (before ++ r :: after) url = Some i.
Proof.
  intros Hb Hr Hi. induction Hb as [|p before Hp _ IH]; cbn [app first_capture].
  - rewrite Hr. destruct i; [now elim Hi | reflexivity].
  - now rewrite Hp.
Qed.

Lemma well_formed_id_not_empty i : well_formed_id i -> i <> [].
Proof. intros [H _] ->. discriminate. Qed.

(** On a URL made of a prefix without the letter [y], the marker of one of
    the six literal patterns and an identifier, that pattern finds the
    identifier. *)
Lemma str_match_literal_pattern (m pre i post : jsstring) :
  In (cat [Lit m; Group (Rep id_char 11)]) patterns ->
  forallb not_y pre = true ->
  well_formed_id i ->
  str_match (pre ++ m ++ i ++ post) (cat [Lit m; Group (Rep id_char 11)])
  = Some (Some i).
Proof.
  intros Hin Hp [Hl Hi]. unfold str_match.
  rewrite search_from_skip_prefix by assumption.
  rewrite (@search_from_found _ _ _ post (Some i)); [reflexivity|].
  rewrite <- Hl. now apply match_at_marker.
Qed.

Lemma str_match_watch_params (pre q i : jsstring) :
  forallb not_y pre = true ->
  forallb dot q = true ->
  well_formed_id i ->
  str_match (pre ++ js "youtube.com/watch?" ++ q ++ js "v=" ++ i)
            watch_params_pattern
  = Some (Some i).
Proof.
  intros Hp Hq Hi. unfold str_match.
  rewrite search_from_skip_prefix;
    [|right; left; reflexivity | exact Hp].
  rewrite (@search_from_found _ _ _ [] (Some i)); [reflexivity|].
  now apply match_at_watch_params.
Qed.

(** *** The recognized forms *)

(** [str_match (host ++ M ++ i) r = None] for a pattern [r] of the list
    whose marker does not occur in the concrete text [M]: the search passes
    over the host, fails where [M] starts, passes over the rest of [M] and
    finds the identifier too short for a match. *)
Ltac no_match Hhost Hlen :=
  rewrite ?app_nil_r; unfold str_match;
  rewrite search_from_skip_prefix by (first [exact Hhost | cbn; tauto]);
  match goal with
  | |- context [search_from ?r ?n (js ?M ++ ?i)] =>
      let rest := eval vm_compute in (tl (js M)) in
      change (js M ++ i) with (121%N :: (rest ++ i));
      rewrite (@search_from_skip r n 121%N (rest ++ i)) by reflexivity;
      rewrite (@search_from_skip_prefix r rest i)
        by (first [reflexivity | cbn; tauto]);
      rewrite search_from_too_short by (rewrite Hlen; cbn; lia)
  end;
  reflexivity.

Ltac literal_form Hhost Hi before after :=
  apply (@first_capture_at before after);
  [ repeat constructor; no_match Hhost (proj1 Hi)
  | apply str_match_literal_pattern; [cbn; tauto | exact Hhost | exact Hi]
  | now apply well_formed_id_not_empty ].

(** On the usual spellings of the seven forms, with any scheme and host
    prefix that has no letter [y] in it (such as [https://www.],
    [https://m.] or none) and any identifier, [extractYoutubeId] returns the
    identifier. *)
Lemma extractYoutubeId_canonical_forms (host i : jsstring) :
  forallb not_y host = true ->
  well_formed_id i ->
  Forall (fun url => extractYoutubeId url = Some i)
    [ host ++ js "youtube.com/watch?v=" ++ i;
      host ++ js "youtube.com/watch?v=" ++ i ++ js "&t=42s";
      host ++ js "youtube.com/watch?feature=share&v=" ++ i;
      host ++ js "youtu.be/" ++ i;
      host ++ js "youtube.com/embed/" ++ i;
      host ++ js "youtube.com/v/" ++ i;
      host ++ js "youtube.com/shorts/" ++ i;
      host ++ js "youtube.com/live/" ++ i ].
Proof.
  intros Hhost Hi. unfold extractYoutubeId, patterns.
  repeat apply Forall_cons; [ | | | | | | | | apply Forall_nil].
  - rewrite <- (app_nil_r i) at 1.
    literal_form Hhost Hi (@nil re) (tl patterns).
  - literal_form Hhost Hi (@nil re) (tl patterns).
  - change (js "youtube.com/watch?feature=share&v=" ++ i)
      with (js "youtube.com/watch?" ++ js "feature=share&" ++ js "v=" ++ i).
    apply (@first_capture_at (firstn 1 patterns) (skipn 2 patterns)).
    + repeat constructor.
      change (js "youtube.com/watch?" ++ js "feature=share&" ++ js "v=" ++ i)
        with (js "youtube.com/watch?feature=share&v=" ++ i).
      no_match Hhost (proj1 Hi).
    + now apply str_match_watch_params.
    + now apply well_formed_id_not_empty.
  - rewrite <- (app_nil_r i) at 1.
    literal_form Hhost Hi (firstn 2 patterns) (skipn 3 patterns).
  - rewrite <- (app_nil_r i) at 1.
    literal_form Hhost Hi (firstn 3 patterns) (skipn 4 patterns).
  - rewrite <- (app_nil_r i) at 1.
    literal_form Hhost Hi (firstn 4 patterns) (skipn 5 patterns).
  - rewrite <- (app_nil_r i) at 1.
    literal_form Hhost Hi (firstn 5 patterns) (skipn 6 patterns).
  - rewrite <- (app_nil_r i) at 1.
    literal_form Hhost Hi (firstn 6 patterns) (skipn 7 patterns).
Qed.

(** A URL that none of the patterns matches has no identifier. *)
Lemma extractYoutubeId_unrecognized (url : jsstring) :
  Forall (fun p => str_match url p = None) patterns ->
  extractYoutubeId url = None.
Proof.
  unfold extractYoutubeId. generalize patterns.
  induction 1 as [|p ps Hp _ IH]; cbn [first_capture]; [reflexivity|].
  now rewrite Hp.
Qed.

(** *** A watch URL whose [v] parameter is not the last one *)

(** C3.  [shared_watch_url] is a watch URL with extra query parameters
    whose [v] parameter is [dQw4w9WgXcQ].  [extractYoutubeId] returns
    [AAAAAAAAAAA] for it, the value of the parameter [rev]: the pattern for
    extra parameters lets [.*] run to the last [v=] that eleven identifier
    characters follow, whatever stands before the [v].  The pattern of the
    earlier page, which wants [?] or [&] before [v=], finds [dQw4w9WgXcQ] in
    the same URL, and so does [extractYoutubeId] once the trailing
    parameter is removed. *)
Theorem extractYoutubeId_later_parameter :
  extractYoutubeId shared_watch_url = Some (js "AAAAAAAAAAA")
  /\ extractYoutubeId shared_watch_url <> Some (js "dQw4w9WgXcQ")
  /\ embed_url_id shared_watch_url = Some (js "dQw4w9WgXcQ")
  /\ extractYoutubeId
       (js "https://www.youtube.com/watch?feature=share&v=dQw4w9WgXcQ")
     = Some (js "dQw4w9WgXcQ").
Proof.
  repeat split; try (vm_compute; reflexivity).
  vm_compute. discriminate.
Qed.

(* ================================================================== *)
(** * Further properties *)

(** ** Code fences *)

Lemma startsWith_app (p s : jsstring) : startsWith (p ++ s) p = true.
Proof. unfold startsWith. now rewrite strip_prefix_app. Qed.

Lemma strip_prefix_split (p q s : jsstring) :
  strip_prefix (p ++ q) s
  = match strip_prefix p s with
    | Some s' => strip_prefix q s'
    | None => None
    end.
Proof.
  revert s. induction p as [|a p IH]; intros s; [reflexivity|].
  cbn. destruct s as [|b s]; [reflexivity|].
  destruct (N.eqb a b); [apply IH | reflexivity].
Qed.

Lemma fence_close_needs_short (pos : nat) (s : jsstring) :
  4 < length s -> match_at fence_close pos s = None.
Proof.
  intros H. unfold match_at, fence_close.
  change (cat [Opt (Lit [10%N]); Lit (js "```"); Eol])
    with (Seq (Opt (Lit [10%N])) (Seq (Lit (js "```")) Eol)).
  rewrite run_seq. cbn [run].
  destruct (strip_prefix [10%N] s) as [s1|] eqn:E1.
  - apply strip_prefix_length in E1. cbn in E1.
    destruct (strip_prefix (js "```") s1) as [[|c s2]|] eqn:E2.
    + apply strip_prefix_length in E2. cbn in E2. lia.
    + destruct (strip_prefix (js "```") s) as [[|d s3]|] eqn:E3;
        try reflexivity.
      apply strip_prefix_length in E3. cbn in E3. lia.
    + destruct (strip_prefix (js "```") s) as [[|d s3]|] eqn:E3;
        try reflexivity.
      apply strip_prefix_length in E3. cbn in E3. lia.
  - destruct (strip_prefix (js "```") s) as [[|d s3]|] eqn:E3;
      try reflexivity.
    apply strip_prefix_length in E3. cbn in E3. lia.
Qed.

Lemma search_fence_close (t : jsstring) :
  forall pos,
    search_from fence_close pos (t ++ 10%N :: js "```")
    = Some (pos + length t, None, []).
Proof.
  induction t as [|c t IH]; intros pos.
  - rewrite Nat.add_0_r. reflexivity.
  - cbn [app]. rewrite search_from_skip.
    + rewrite IH. cbn [length]. do 3 f_equal. lia.
    + apply fence_close_needs_short. cbn [length]. rewrite length_app. cbn. lia.
Qed.

Lemma replace_fence_close (t : jsstring) :
  replace_empty (t ++ 10%N :: js "```") fence_close = t.
Proof.
  unfold replace_empty. rewrite search_fence_close. cbn [Nat.add].
  rewrite firstn_app, Nat.sub_diag, firstn_all. cbn [firstn].
  now rewrite !app_nil_r.
Qed.

Lemma replace_fence_open (l t : jsstring) :
  replace_empty (l ++ 10%N :: t) (cat [Bol; Lit l; Opt (Lit [10%N])]) = t.
Proof.
  unfold replace_empty.
  rewrite (@search_from_found _ 0 _ t None); [reflexivity|].
  unfold match_at.
  change (cat [Bol; Lit l; Opt (Lit [10%N])])
    with (Seq Bol (Seq (Lit l) (Opt (Lit [10%N])))).
  rewrite run_seq. cbn [run]. rewrite strip_prefix_app. cbn. reflexivity.
Qed.

(** X1. A body wrapped in a [```json] fence or in a plain fence, each fence
    on a line of its own, is unwrapped to exactly the body, whatever the
    body is; content that does not start with a fence is left as it is. *)
Theorem strip_fences_unwraps (body : jsstring) :
  strip_fences (fenced_json body) = body
  /\ strip_fences (fenced_plain body) = body
  /\ (startsWith body (js "```") = false -> strip_fences body = body).
Proof.
  split; [|split].
  - unfold strip_fences, fenced_json.
    rewrite startsWith_app.
    unfold fence_json_open. rewrite replace_fence_open.
    apply replace_fence_close.
  - unfold strip_fences, fenced_plain.
    change (startsWith (js "```" ++ 10%N :: body ++ 10%N :: js "```")
                       (js "```json")) with false.
    rewrite startsWith_app.
    unfold fence_open. rewrite replace_fence_open.
    apply replace_fence_close.
  - intros H. unfold strip_fences. rewrite H.
    destruct (startsWith body (js "```json")) eqn:E; [|reflexivity].
    unfold startsWith in *.
    change (js "```json") with (js "```" ++ js "json") in E.
    rewrite strip_prefix_split in E.
    destruct (strip_prefix (js "```") body); discriminate.
Qed.

Lemma trim_between (c l : N) (a : jsstring) :
  is_js_whitespace c = false -> is_js_whitespace l = false ->
  trim (c :: a ++ [l]) = c :: a ++ [l].
Proof.
  intros Hc Hl. unfold trim. cbn [trimStart]. rewrite Hc.
  unfold trimEnd. change (c :: a ++ [l]) with ((c :: a) ++ [l]).
  rewrite rev_app_distr. cbn [rev app trimStart]. rewrite Hl.
  cbn [rev]. now rewrite rev_app_distr, rev_involutive.
Qed.

Lemma trim_fenced (l body : jsstring) :
  trim (96%N :: l ++ 10%N :: body ++ 10%N :: js "```")
  = 96%N :: l ++ 10%N :: body ++ 10%N :: js "```".
Proof.
  replace (l ++ 10%N :: body ++ 10%N :: js "```")
    with ((l ++ 10%N :: body ++ 10%N :: js "``") ++ [96%N]).
  - now apply trim_between.
  - rewrite <- app_assoc. cbn [app]. now rewrite <- app_assoc.
Qed.

(** X2. A model answer wrapped in a code fence ([```json] or plain, each
    fence on its own line) gives the same products as the bare answer,
    for every answer that has no surrounding white space and does not
    itself start with a fence. *)
Theorem fenced_answer_parses_as_bare
        (Number_toString : Q -> jsstring) (body : jsstring) :
  trim body = body ->
  startsWith body (js "```") = false ->
  parse_content Number_toString (JStr (fenced_json body))
  = parse_content Number_toString (JStr body)
  /\ parse_content Number_toString (JStr (fenced_plain body))
     = parse_content Number_toString (JStr body).
Proof.
  intros Ht Hs.
  destruct (strip_fences_unwraps body) as (Hj & Hp & Hb).
  unfold parse_content. cbn zeta. rewrite Ht, (Hb Hs). split.
  - unfold fenced_json at 1.
    change (js "```json" ++ 10%N :: body ++ 10%N :: js "```")
      with (96%N :: js "``json" ++ 10%N :: body ++ 10%N :: js "```").
    rewrite trim_fenced.
    change (96%N :: js "``json" ++ 10%N :: body ++ 10%N :: js "```")
      with (fenced_json body).
    now rewrite Hj.
  - unfold fenced_plain at 1.
    change (js "```" ++ 10%N :: body ++ 10%N :: js "```")
      with (96%N :: js "``" ++ 10%N :: body ++ 10%N :: js "```").
    rewrite trim_fenced.
    change (96%N :: js "``" ++ 10%N :: body ++ 10%N :: js "```")
      with (fenced_plain body).
    now rewrite Hp.
Qed.

Lemma fenced_answer_parses_as_bare_witness :
  parse_content no_number_printer (JStr (fenced_json bag_answer)) = [bag].
Proof.
  rewrite (proj1 (@fenced_answer_parses_as_bare no_number_printer bag_answer
                    eq_refl eq_refl)).
  reflexivity.
Defined.

Lemma strip_fences_unwraps_witness :
  strip_fences bag_answer = bag_answer.
Proof.
  exact (proj2 (proj2 (strip_fences_unwraps bag_answer)) eq_refl).
Defined.

(** ** The batch of products *)

(** X3. One candidate whose name cannot be encoded (a lone surrogate, or
    an object that hides [toString]) empties the whole result: the entries
    before and after it are lost with it. *)
Theorem unencodable_name_empties_batch
        (Number_toString : Q -> jsstring)
        (before after : list json) (p : json) :
  is_candidate p = true ->
  encode_value Number_toString (get p (js "name")) = None ->
  validate Number_toString (before ++ p :: after) = [].
Proof.
  intros Hc He. unfold validate. rewrite filter_app. cbn [filter]. rewrite Hc.
  assert (H : map_products Number_toString
                (filter is_candidate before ++ p :: filter is_candidate after)
              = None).
  { induction (filter is_candidate before) as [|q l IH]; cbn [app map_products].
    - unfold to_product. now rewrite He.
    - rewrite IH. now destruct (to_product Number_toString q). }
  now rewrite H.
Qed.

Lemma unencodable_name_empties_batch_witness :
  validate no_number_printer [mug_entry; lone_surrogate_entry; mug_entry] = [].
Proof.
  exact (@unencodable_name_empties_batch no_number_printer
           [mug_entry] [mug_entry] lone_surrogate_entry eq_refl eq_refl).
Defined.






(** ** The search link *)

Lemma percent_safe (b : N) :
  (b < 256)%N -> forallb query_safe (percent b) = true.
Proof.
  intros H.
  assert (A : forallb (fun k => forallb query_safe (percent (N.of_nat k)))
                      (seq 0 256) = true) by (vm_compute; reflexivity).
  rewrite forallb_forall in A.
  rewrite <- (N2Nat.id b). apply A. apply in_seq. lia.
Qed.

Lemma utf8_bytes (cp : N) :
  (cp < 1114112)%N -> Forall (fun b => (b < 256)%N) (utf8 cp).
Proof.
  intros H. unfold utf8.
  destruct (N.ltb_spec cp 128); [repeat constructor; lia|].
  destruct (N.ltb_spec cp 2048).
  { repeat constructor.
    - assert (cp / 64 < 32)%N by (apply N.Div0.div_lt_upper_bound; lia). lia.
    - assert (cp mod 64 < 64)%N by (apply N.mod_lt; lia). lia. }
  destruct (N.ltb_spec cp 65536).
  { repeat constructor.
    - assert (cp / 4096 < 16)%N by (apply N.Div0.div_lt_upper_bound; lia). lia.
    - assert ((cp / 64) mod 64 < 64)%N by (apply N.mod_lt; lia). lia.
    - assert (cp mod 64 < 64)%N by (apply N.mod_lt; lia). lia. }
  repeat constructor.
  - assert (cp / 262144 < 5)%N by (apply N.Div0.div_lt_upper_bound; lia). lia.
  - assert ((cp / 4096) mod 64 < 64)%N by (apply N.mod_lt; lia). lia.
  - assert ((cp / 64) mod 64 < 64)%N by (apply N.mod_lt; lia). lia.
  - assert (cp mod 64 < 64)%N by (apply N.mod_lt; lia). lia.
Qed.

Lemma percent_bytes_safe (l : list N) :
  Forall (fun b => (b < 256)%N) l ->
  forallb query_safe (flat_map percent l) = true.
Proof.
  induction l as [|b l IH]; intros H; [reflexivity|].
  inversion H as [|? ? Hb Hl]; subst.
  change (flat_map percent (b :: l)) with (percent b ++ flat_map percent l).
  rewrite forallb_app. apply andb_true_iff. split;
    [now apply percent_safe | now apply IH].
Qed.

Lemma percent_utf8_safe (cp : N) :
  (cp < 1114112)%N -> forallb query_safe (percent_utf8 cp) = true.
Proof.
  intros H. unfold percent_utf8. apply percent_bytes_safe. now apply utf8_bytes.
Qed.

Lemma encodeURIComponent_safe :
  forall (n : nat) (s e : jsstring),
    length s <= n ->
    code_units s = true ->
    encodeURIComponent s = Some e ->
    forallb query_safe e = true.
Proof.
  induction n as [|n IH]; intros s e Hl Hu He.
  - destruct s; [|cbn in Hl; lia]. now injection He as <-.
  - destruct s as [|c r]; [now injection He as <-|].
    cbn [code_units forallb] in Hu. apply andb_true_iff in Hu as [Hc Hr].
    apply N.ltb_lt in Hc. cbn [length] in Hl.
    cbn [encodeURIComponent] in He.
    destruct (uri_unreserved c) eqn:Eu.
    { destruct (encodeURIComponent r) as [e'|] eqn:Er; [|discriminate].
      injection He as <-. cbn [forallb]. unfold query_safe at 1.
      rewrite Eu. cbn. apply (IH r); [lia | exact Hr | exact Er]. }
    destruct (is_trail_surrogate c); [discriminate|].
    destruct (is_lead_surrogate c) eqn:El.
    + destruct r as [|d r']; [discriminate|].
      destruct (is_trail_surrogate d) eqn:Et; [|discriminate].
      destruct (encodeURIComponent r') as [e'|] eqn:Er; [|discriminate].
      injection He as <-. rewrite forallb_app.
      cbn [forallb] in Hr. apply andb_true_iff in Hr as [Hd Hr'].
      cbn [length] in Hl.
      apply andb_true_iff. split;
        [|apply (IH r' e'); [lia | exact Hr' | exact Er]].
      apply percent_utf8_safe.
      unfold is_lead_surrogate, is_trail_surrogate, in_range in El, Et.
      apply andb_true_iff in El as [_ El]. apply andb_true_iff in Et as [_ Et].
      apply N.leb_le in El, Et. lia.
    + destruct (encodeURIComponent r) as [e'|] eqn:Er; [|discriminate].
      injection He as <-. rewrite forallb_app.
      apply andb_true_iff. split;
        [|apply (IH r e'); [lia | exact Hr | exact Er]].
      apply percent_utf8_safe. lia.
Qed.

(** X5. For an entry whose name is a string, the URL of the product is the
    search prefix followed by unreserved characters and percent escapes
    only: whatever the model puts into a name, it cannot add a parameter
    ([&], [=]), a fragment ([#]) or a blank to the link. *)
Theorem search_link_is_one_query_value
        (Number_toString : Q -> jsstring)
        (p : json) (s : jsstring) (product : Product) :
  get p (js "name") = Some (JStr s) ->
  code_units s = true ->
  to_product Number_toString p = Some product ->
  exists e,
    encodeURIComponent s = Some e
    /\ searchUrl product = js "https://www.amazon.com/s?k=" ++ e
    /\ forallb query_safe e = true
    /\ ~ In 38%N e /\ ~ In 61%N e /\ ~ In 35%N e /\ ~ In 32%N e.
Proof.
  intros Hn Hu Ht. unfold to_product in Ht. rewrite Hn in Ht.
  cbn [encode_value ToString] in Ht.
  destruct (encodeURIComponent s) as [e|] eqn:Ee; [|discriminate].
  injection Ht as <-. exists e.
  pose proof (@encodeURIComponent_safe (length s) s e (le_n _) Hu Ee) as Hs.
  split; [reflexivity|]. split; [reflexivity|]. split; [exact Hs|].
  rewrite forallb_forall in Hs.
  repeat split; intros Hin; apply Hs in Hin; discriminate Hin.
Qed.

Lemma search_link_is_one_query_value_witness :
  exists e,
    encodeURIComponent (js "Mug & saucer") = Some e
    /\ ~ In 38%N e.
Proof.
  destruct (@search_link_is_one_query_value no_number_printer
              (JObj [(js "name", JStr (js "Mug & saucer"));
                     (js "category", JStr (js "Home"))])
              (js "Mug & saucer")
              {| name := Some (JStr (js "Mug & saucer"));
                 category := Some (JStr (js "Home"));
                 confidence := default_confidence;
                 searchUrl := search_prefix ++ js "Mug%20%26%20saucer" |}
              eq_refl eq_refl eq_refl) as (e & He & _ & _ & Ha & _).
  exists e. split; assumption.
Defined.

(** ** The request handler *)

Lemma after_fetch_cases (Number_toString : Q -> jsstring) (upstream : Upstream) :
  (exists st aiResponse,
      upstream = Replied st (Some aiResponse)
      /\ ok st = true /\ aiResponse <> JNull
      /\ after_fetch Number_toString upstream
         = {| status := 200;
              body := ProductsBody
                        (parse_content Number_toString (content_of aiResponse)) |})
  \/ (exists st error,
         after_fetch Number_toString upstream
         = {| status := st; body := ErrorBody error |}
         /\ ok st = false
         /\ forall st' aiResponse,
              upstream = Replied st' (Some aiResponse) ->
              ok st' = false \/ aiResponse = JNull).
Proof.
  destruct upstream as [|st json_body]; cbn [after_fetch].
  { right. do 2 eexists. repeat split. discriminate. }
  destruct (ok st) eqn:Es; cbn [negb].
  - destruct json_body as [ai|].
    + destruct ai;
        try (left; do 2 eexists; repeat split;
             [exact Es | discriminate]).
      right. do 2 eexists. repeat split.
      intros st' ai' H. right. congruence.
    + right. do 2 eexists. repeat split. discriminate.
  - right.
    destruct (N.eqb st 429); [|destruct (N.eqb st 402)];
      do 2 eexists; repeat split; intros st' ai' H; left; congruence.
Qed.

Lemma serve_cases (Number_toString : Q -> jsstring) (req : Request)
      (key : option jsstring) (upstream : Upstream) :
  (is_options req = true
   /\ serve Number_toString req key upstream
      = ({| status := 200; body := NoBody |}, 0))
  \/ (is_options req = false
      /\ (forall b, request_json req = Some b -> has_image b = true ->
                    key_present key = false)
      /\ exists st error,
           serve Number_toString req key upstream
           = ({| status := st; body := ErrorBody error |}, 0)
           /\ ok st = false)
  \/ (is_options req = false
      /\ (exists b, request_json req = Some b /\ has_image b = true)
      /\ key_present key = true
      /\ serve Number_toString req key upstream
         = (after_fetch Number_toString upstream, 1)).
Proof.
  unfold serve. destruct (is_options req); [now left | right].
  destruct (request_json req) as [b|].
  - destruct (has_image b) eqn:Ei.
    + destruct (key_present key) eqn:Ek.
      * right. repeat split; eauto.
        destruct b; try reflexivity. discriminate Ei.
      * left. split; [reflexivity|]. split; [congruence|].
        destruct b; do 2 eexists; split; reflexivity.
    + left. split; [reflexivity|]. split.
      * intros b' Hb' Hi'. injection Hb' as <-. congruence.
      * destruct b; do 2 eexists; split; reflexivity.
  - left. split; [reflexivity|]. split; [discriminate|].
    do 2 eexists; split; reflexivity.
Qed.

(** X6. The handler calls the gateway exactly when the request is not a
    preflight, its body is JSON with a truthy [imageData] and the API key
    is set, and it calls it once; its reply carries products exactly when
    its status is 200 on a request that is not a preflight, which happens
    only after the gateway has answered with a success status and a JSON
    body other than [null]; every error body comes with a status outside
    200..299. *)
Theorem serve_reply_shape
        (Number_toString : Q -> jsstring) (req : Request)
        (key : option jsstring) (upstream : Upstream) :
  let reply := fst (serve Number_toString req key upstream) in
  let calls := snd (serve Number_toString req key upstream) in
  (calls = 1 <->
   is_options req = false
   /\ (exists b, request_json req = Some b /\ has_image b = true)
   /\ key_present key = true)
  /\ (calls = 0 \/ calls = 1)
  /\ ((exists products, body reply = ProductsBody products) <->
      is_options req = false /\ status reply = 200%N)
  /\ ((exists products, body reply = ProductsBody products) ->
      calls = 1
      /\ exists st aiResponse,
           upstream = Replied st (Some aiResponse)
           /\ ok st = true /\ aiResponse <> JNull)
  /\ (forall error, body reply = ErrorBody error -> ok (status reply) = false)
  /\ (body reply = NoBody <-> is_options req = true).
Proof.
  cbn zeta.
  destruct (serve_cases Number_toString req key upstream)
    as [(Ho & ->) | [(Ho & Hg & st & error & -> & Hs)
                    | (Ho & (b & Hb & Hi) & Hk & ->)]];
    cbn [fst snd status body];
    [ | | destruct (after_fetch_cases Number_toString upstream)
            as [(st & ai & Hu & Hs & Hn & ->) | (st & error & -> & Hs & Hu)];
          cbn [status body] ];
    (repeat split; intros;
     repeat match goal with
            | H : exists _, _ |- _ => destruct H
            | H : _ /\ _ |- _ => destruct H
            end;
     subst; try discriminate; try congruence; eauto).
  match goal with
  | Hb : request_json req = Some ?b, Hi : has_image ?b = true |- _ =>
      pose proof (Hg _ Hb Hi); congruence
  end.
Qed.

(** X7. A gateway reply that holds no answer is not an error: when
    [choices] is missing, [null] or empty, when the first choice has no
    message, or when the message has no content or an empty one, the
    content defaults to the text of the empty array and the handler replies
    with status 200 and no products. *)
Theorem absent_content_is_empty_success
        (Number_toString : Q -> jsstring) (st : N) (aiResponse : json) :
  ok st = true ->
  aiResponse <> JNull ->
  (get aiResponse (js "choices") = None
   \/ get aiResponse (js "choices") = Some JNull
   \/ get aiResponse (js "choices") = Some (JArr [])
   \/ exists choices first,
        get aiResponse (js "choices") = Some choices
        /\ get choices (js "0") = Some first
        /\ (get first (js "message") = None
            \/ exists message,
                 get first (js "message") = Some message
                 /\ (get message (js "content") = None
                     \/ get message (js "content") = Some JNull
                     \/ get message (js "content") = Some (JStr [])))) ->
  content_of aiResponse = JStr (js "[]")
  /\ after_fetch Number_toString (Replied st (Some aiResponse))
     = {| status := 200; body := ProductsBody [] |}.
Proof.
  intros Hs Hn H.
  assert (E : content_of aiResponse = JStr (js "[]")).
  { unfold content_of.
    destruct H as [-> | [-> | [-> | (choices & first & -> & Hf & H)]]];
      try reflexivity.
    cbn [opt_get].
    destruct choices; try (rewrite Hf);
      try (cbn in Hf; discriminate Hf).
    all: cbn [opt_get].
    all: destruct H as [Hm | (message & Hm & Hc)];
      [ destruct first; try rewrite Hm; try reflexivity
      | destruct first; try rewrite Hm; try (cbn in Hm; discriminate Hm);
        cbn [opt_get];
        destruct Hc as [Hc | [Hc | Hc]];
        destruct message; try rewrite Hc; try reflexivity;
        try (cbn in Hc; discriminate Hc) ].
  }
  split; [exact E|].
  cbn [after_fetch]. rewrite Hs. cbn [negb]. rewrite E.
  destruct aiResponse; try reflexivity. now elim Hn.
Qed.

Lemma absent_content_is_empty_success_witness :
  after_fetch no_number_printer
    (Replied 200 (Some (JObj [(js "choices", JArr [])])))
  = {| status := 200; body := ProductsBody [] |}.
Proof.
  assert (Hn : JObj [(js "choices", JArr [])] <> JNull) by discriminate.
  exact (proj2 (@absent_content_is_empty_success no_number_printer 200
                  (JObj [(js "choices", JArr [])])
                  eq_refl Hn (or_intror (or_intror (or_introl eq_refl))))).
Defined.

(** ** What a scan sends *)

Lemma is_youtube_some (v : VideoData) :
  is_youtube (Some v) = jseqb (source_type v) (js "youtube").
Proof. reflexivity. Qed.

(** X8. On a video of the embedded backend whose URL yields an identifier,
    a scan needs nothing from the DOM: whatever the DOM holds, it issues
    one request that carries the thumbnail locator of that identifier, the
    route identifier and the URL flag, enters the scanning state and
    clears the earlier results.  When the URL yields no identifier the scan
    sends nothing and raises the capture toast, again whatever the DOM
    holds. *)
Theorem embedded_scan_sends_thumbnail (dom : Dom) (s : State) (v : VideoData) :
  video s = Some v ->
  is_youtube (Some v) = true ->
  match extractYoutubeId (video_url v) with
  | Some videoId =>
      sent (scanProducts dom s)
      = {| imageData := js "https://img.youtube.com/vi/" ++ videoId
                           ++ js "/maxresdefault.jpg";
           videoId := route_id s;
           isUrl := true |} :: sent s
      /\ in_flight (scanProducts dom s)
         = {| imageData := js "https://img.youtube.com/vi/" ++ videoId
                              ++ js "/maxresdefault.jpg";
              videoId := route_id s;
              isUrl := true |} :: in_flight s
      /\ isScanning (scanProducts dom s) = true
      /\ scannedProducts (scanProducts dom s) = []
      /\ showProducts (scanProducts dom s) = false
      /\ toasts (scanProducts dom s) = toasts s
  | None =>
      sent (scanProducts dom s) = sent s
      /\ in_flight (scanProducts dom s) = in_flight s
      /\ isScanning (scanProducts dom s) = isScanning s
      /\ toasts (scanProducts dom s) = capture_toast :: toasts s
  end.
Proof.
  intros Hv Hy. unfold scanProducts. rewrite Hv, Hy.
  destruct (extractYoutubeId (video_url v)) as [videoId|].
  - unfold getYoutubeThumbnail.
    change (js "https://img.youtube.com/vi/" ++ videoId ++ js "/maxresdefault.jpg")
      with (104%N :: js "ttps://img.youtube.com/vi/" ++ videoId
                 ++ js "/maxresdefault.jpg").
    cbv iota beta.
    destruct (true && ytPlayerRef dom)%bool; [|destruct (videoRef dom)];
      repeat split.
  - destruct (true && ytPlayerRef dom)%bool; [|destruct (videoRef dom)];
      repeat split.
Qed.

Lemma embedded_scan_sends_thumbnail_witness :
  map imageData
      (sent (scanProducts undecoded_dom
               (step (initial (js "c")) (VideoFetched rickroll))))
  = [js "https://img.youtube.com/vi/dQw4w9WgXcQ/maxresdefault.jpg"].
Proof.
  pose proof (@embedded_scan_sends_thumbnail undecoded_dom
                (step (initial (js "c")) (VideoFetched rickroll))
                rickroll eq_refl eq_refl) as H.
  change (extractYoutubeId (video_url rickroll))
    with (Some (js "dQw4w9WgXcQ")) in H.
  cbv iota beta in H. rewrite (proj1 H). reflexivity.
Defined.

(** X9. On a video of the native backend a scan sends a frame only when
    the video element and the canvas are there, the canvas has a 2D
    context, both dimensions of the video are non-zero and the rendering
    gives a non-empty image; the request then carries that image, the
    route identifier and no URL flag.  In every other case nothing is
    sent. *)
Theorem native_scan_sends_frame (dom : Dom) (s : State) :
  is_youtube (video s) = false ->
  (sent (scanProducts dom s) = sent s
   /\ in_flight (scanProducts dom s) = in_flight s
   /\ toasts (scanProducts dom s) = capture_toast :: toasts s)
  \/ (exists videoEl canvas image,
         videoRef dom = Some videoEl
         /\ canvasRef dom = Some canvas
         /\ context2d canvas = true
         /\ videoWidth videoEl <> 0%N /\ videoHeight videoEl <> 0%N
         /\ rendering canvas = Some image /\ image <> []
         /\ sent (scanProducts dom s)
            = {| imageData := image; videoId := route_id s; isUrl := false |}
                :: sent s
         /\ isScanning (scanProducts dom s) = true
         /\ isPlaying (scanProducts dom s) = false).
Proof.
  intros Hy. unfold scanProducts. rewrite Hy. cbn [andb].
  assert (E : match video s with
              | Some v => if false then
                            match extractYoutubeId (video_url v) with
                            | Some videoId => Some (getYoutubeThumbnail videoId)
                            | None => None
                            end
                          else captureFrame dom
              | None => captureFrame dom
              end = captureFrame dom) by (destruct (video s); reflexivity).
  rewrite E. clear E. unfold captureFrame.
  destruct (videoRef dom) as [videoEl|]; [|left; repeat split].
  destruct (canvasRef dom) as [canvas|]; [|left; repeat split].
  destruct (context2d canvas) eqn:Ec; cbn [negb]; [|left; repeat split].
  destruct (N.eqb_spec (videoWidth videoEl) 0); cbn [orb]; [left; repeat split|].
  destruct (N.eqb_spec (videoHeight videoEl) 0); [left; repeat split|].
  destruct (rendering canvas) as [[|c d]|] eqn:Er;
    try solve [left; repeat split].
  right. exists videoEl, canvas, (c :: d). repeat split; try assumption.
  discriminate.
Qed.

Lemma native_scan_sends_frame_witness :
  map imageData
      (sent (scanProducts decoded_dom
               (step (initial (js "a")) (VideoFetched video_a))))
  = [js "data:image/jpeg;base64,AA"].
Proof.
  destruct (@native_scan_sends_frame decoded_dom
              (step (initial (js "a")) (VideoFetched video_a)) eq_refl)
    as [(H & _) | (videoEl & canvas & image & _ & Hc & _ & _ & _ & Hr & _ & H & _)].
  - discriminate H.
  - rewrite H. injection Hc as <-. injection Hr as <-. reflexivity.
Defined.

(** ** Invariants of the page *)

(** X10. In every state the page can reach, while a scan is in progress
    the product list is empty and the overlays are off: the results of an
    earlier scan are never visible during a new one. *)
Theorem results_hidden_while_scanning (route : jsstring) (s : State) :
  reachable route s ->
  isScanning s = true ->
  scannedProducts s = [] /\ showProducts s = false.
Proof.
  intros Hr Hs. pose proof (reachable_single_flight Hr) as H.
  unfold single_flight in H. rewrite Hs in H. tauto.
Qed.

Lemma results_hidden_while_scanning_witness :
  scannedProducts switched_while_scanning = [].
Proof.
  refine (proj1 (@results_hidden_while_scanning (js "a") switched_while_scanning
                   _ eq_refl)).
  unfold switched_while_scanning, run_events. cbn [fold_left].
  repeat apply reach_step. apply reach_initial.
Defined.

Lemma overlays_have_products_step (s : State) (e : Event) :
  overlays_have_products s -> overlays_have_products (step s e).
Proof.
  unfold overlays_have_products. intros H.
  destruct e as [dom|k result now random|r|d| |b]; cbn [step]; try exact H.
  - destruct (scan_button_enabled s); [|exact H].
    destruct (scanProducts_cases dom s)
      as [-> | [-> | (rq & _ & _ & _ & _ & _ & Hv)]]; try exact H.
    rewrite Hv. discriminate.
  - unfold settle. destruct (nth_error (in_flight s) k); [|exact H].
    destruct result as [m|[[|p ps]|]]; cbn; try exact H.
    intros _. discriminate.
  - cbn. discriminate.
Qed.

(** X11. In every state the page can reach, the overlays are on only over
    a product list that is not empty. *)
Theorem overlays_shown_only_with_products (route : jsstring) (s : State) :
  reachable route s ->
  showProducts s = true -> scannedProducts s <> [].
Proof.
  induction 1 as [|s e _ IH]; [discriminate|].
  now apply overlays_have_products_step.
Qed.

Lemma overlays_shown_only_with_products_witness :
  scannedProducts
    (step switched_while_scanning
          (Settled 0 (InvokeData (Some [bag])) clock no_jitter)) <> [].
Proof.
  refine (@overlays_shown_only_with_products (js "a")
            (step switched_while_scanning
                  (Settled 0 (InvokeData (Some [bag])) clock no_jitter))
            _ eq_refl).
  apply reach_step.
  unfold switched_while_scanning, run_events. cbn [fold_left].
  repeat apply reach_step. apply reach_initial.
Defined.

(** X12. A scan never stays in progress once its request is answered: in
    every reachable state that is scanning, the answer to the request in
    flight, whatever it is, leaves the page not scanning, with nothing in
    flight and with the session ended as succeeded or as failed.  An
    answer when nothing is in flight, or for any but the first request,
    changes nothing. *)
Theorem scan_ends_when_answered
        (route : jsstring) (s : State) (result : InvokeResult)
        (now : nat -> N) (random : nat -> Q) :
  reachable route s ->
  (isScanning s = true ->
   isScanning (step s (Settled 0 result now random)) = false
   /\ in_flight (step s (Settled 0 result now random)) = []
   /\ (session_status (step s (Settled 0 result now random)) = succeeded
       \/ session_status (step s (Settled 0 result now random)) = failed))
  /\ (isScanning s = false ->
      forall k, step s (Settled k result now random) = s)
  /\ (forall k, step s (Settled (S k) result now random) = s).
Proof.
  intros Hr. pose proof (reachable_single_flight Hr) as H.
  unfold single_flight in H. cbn [step]. unfold settle.
  destruct (isScanning s) eqn:Hs.
  - destruct H as (Hl & _ & _).
    destruct (in_flight s) as [|rq [|rq' l]]; try discriminate.
    split; [|split].
    + intros _. cbn [nth_error].
      destruct result as [m|[[|p ps]|]]; cbn; repeat split; auto.
    + discriminate.
    + intros k. cbn. now destruct k.
  - rewrite H. split; [discriminate|]. split.
    + intros _ k. now destruct k.
    + intros k. reflexivity.
Qed.

Lemma scan_ends_when_answered_witness :
  isScanning (step switched_while_scanning
                   (Settled 0 (InvokeError (js "offline")) clock no_jitter))
  = false.
Proof.
  refine (proj1 (proj1 (@scan_ends_when_answered (js "a")
                          switched_while_scanning
                          (InvokeError (js "offline")) clock no_jitter _)
                       eq_refl)).
  unfold switched_while_scanning, run_events. cbn [fold_left].
  repeat apply reach_step. apply reach_initial.
Defined.

Lemma after_fetch_status (Number_toString : Q -> jsstring) (upstream : Upstream) :
  In (status (after_fetch Number_toString upstream)) [200; 429; 402; 500]%N.
Proof.
  destruct upstream as [|st json_body]; cbn [after_fetch]; [cbn; tauto|].
  destruct (ok st); cbn [negb].
  - destruct json_body as [[]|]; cbn; tauto.
  - destruct (N.eqb st 429); [|destruct (N.eqb st 402)]; cbn; tauto.
Qed.

Lemma scanProducts_sent (dom : Dom) (s : State) (r : Invocation) :
  In r (sent (scanProducts dom s)) ->
  In r (sent s)
  \/ (imageData r <> []
      /\ videoId r = route_id s
      /\ (isUrl r = true ->
          exists videoId, imageData r = getYoutubeThumbnail videoId)).
Proof.
  unfold scanProducts.
  set (paused := if (is_youtube (video s) && ytPlayerRef dom)%bool
                 then set_isPlaying false s
                 else match videoRef dom with
                      | Some _ => set_isPlaying false s
                      | None => s
                      end).
  assert (Hp : sent paused = sent s).
  { subst paused. destruct (is_youtube (video s) && ytPlayerRef dom)%bool;
      [reflexivity|]. destruct (videoRef dom); reflexivity. }
  destruct (video s) as [v|] eqn:Ev.
  - destruct (is_youtube (Some v)) eqn:Ey.
    + destruct (extractYoutubeId (video_url v)) as [i|].
      * unfold getYoutubeThumbnail at 1.
        change (js "https://img.youtube.com/vi/" ++ i ++ js "/maxresdefault.jpg")
          with (104%N :: js "ttps://img.youtube.com/vi/" ++ i
                     ++ js "/maxresdefault.jpg").
        cbv iota beta. cbn [sent]. rewrite Hp. intros [<- | H]; [right | now left].
        cbn. repeat split; [discriminate|]. intros _. now exists i.
      * cbn [toast sent]. rewrite Hp. now left.
    + destruct (captureFrame dom) as [[|c d]|]; cbn [toast sent];
        rewrite Hp; try (now left).
      intros [<- | H]; [right | now left].
      cbn. repeat split; discriminate.
  - change (is_youtube None) with false.
    destruct (captureFrame dom) as [[|c d]|]; cbn [toast sent];
      rewrite Hp; try (now left).
    intros [<- | H]; [right | now left].
    cbn. repeat split; discriminate.
Qed.

Lemma sent_well_formed_step (s : State) (e : Event) :
  sent_well_formed s -> sent_well_formed (step s e).
Proof.
  unfold sent_well_formed. intros H.
  destruct e as [dom|k result now random|r'|d| |b]; cbn [step]; try exact H.
  - destruct (scan_button_enabled s); [|exact H].
    intros r Hin. destruct (scanProducts_sent dom s r Hin) as [Hs | (Hi & _ & Hu)];
      [now apply H | now split].
  - unfold settle. destruct (nth_error (in_flight s) k); [|exact H].
    destruct result as [m|[[|p ps]|]]; exact H.
Qed.

(** X13. Every request the page ever sends carries a non-empty image, and
    one flagged as a URL carries the thumbnail locator of some identifier.
    The edge function therefore never answers a request of the page with
    the 400 reply for missing image data, and with an API key set it
    always passes the request on to the gateway. *)
Theorem page_requests_carry_an_image
        (Number_toString : Q -> jsstring)
        (route : jsstring) (s : State) (r : Invocation) :
  reachable route s ->
  In r (sent s) ->
  imageData r <> []
  /\ (isUrl r = true ->
      exists videoId, imageData r = getYoutubeThumbnail videoId)
  /\ has_image (invoke_body r) = true
  /\ forall key upstream,
       status (fst (serve Number_toString (edge_request r) key upstream))
       <> 400%N
       /\ (key_present key = true ->
           serve Number_toString (edge_request r) key upstream
           = (after_fetch Number_toString upstream, 1)).
Proof.
  intros Hr Hin.
  assert (W : sent_well_formed s).
  { clear Hin. induction Hr as [|s e _ IH]; [intros ? []|].
    now apply sent_well_formed_step. }
  destruct (W r Hin) as [Hi Hu].
  assert (Hh : has_image (invoke_body r) = true).
  { unfold has_image, invoke_body. cbn. destruct (imageData r); [now elim Hi|].
    reflexivity. }
  repeat split; try assumption.
  - unfold serve, edge_request. cbn [is_options request_json].
    unfold invoke_body at 1. cbv iota. rewrite Hh. cbn [negb].
    destruct (key_present key); cbn [negb fst status]; [|discriminate].
    intros E. pose proof (after_fetch_status Number_toString upstream) as A.
    rewrite E in A. cbn in A.
    repeat (destruct A as [A | A]; [discriminate A|]). exact A.
  - intros Hk. unfold serve, edge_request. cbn [is_options request_json].
    unfold invoke_body at 1. cbv iota. now rewrite Hh, Hk.
Qed.

Lemma page_requests_carry_an_image_witness :
  has_image
    (invoke_body {| imageData := js "data:image/jpeg;base64,AA";
                    videoId := js "a"; isUrl := false |})
  = true.
Proof.
  refine (proj1 (proj2 (proj2
    (@page_requests_carry_an_image no_number_printer (js "a")
       (run_events (initial (js "a"))
          [VideoFetched video_a; ClickScan decoded_dom])
       {| imageData := js "data:image/jpeg;base64,AA";
          videoId := js "a"; isUrl := false |}
       _ (or_introl eq_refl))))).
  unfold run_events. cbn [fold_left].
  repeat apply reach_step. apply reach_initial.
Defined.

(** ** The library page and the player *)

Lemma id_char_not_whitespace (c : N) :
  id_char c = true -> is_js_whitespace c = false.
Proof.
  intros H. destruct (is_js_whitespace c) eqn:E; [|reflexivity].
  unfold id_char, is_js_whitespace, in_range in *.
  repeat rewrite ?orb_true_iff, ?andb_true_iff, ?N.eqb_eq, ?N.leb_le in *.
  lia.
Qed.

Lemma trim_identifier (i : jsstring) : well_formed_id i -> trim i = i.
Proof.
  intros [Hl Hi].
  do 11 (destruct i as [|? i]; [discriminate Hl|]).
  destruct i; [|discriminate Hl].
  cbn [forallb] in Hi.
  repeat match type of Hi with
         | (_ && _)%bool = true => apply andb_true_iff in Hi as [? Hi]
         end.
  match goal with
  | |- trim (?c :: ?a :: ?b :: ?d :: ?e :: ?f :: ?g :: ?h :: ?k :: ?m :: [?l]) = _ =>
      change (trim (c :: [a; b; d; e; f; g; h; k; m] ++ [l])
              = c :: [a; b; d; e; f; g; h; k; m] ++ [l])
  end.
  apply trim_between; now apply id_char_not_whitespace.
Qed.

Lemma patterns_need_twenty (r : re) : In r patterns -> 20 <= min_length r.
Proof.
  unfold patterns. cbn [In].
  intros H. repeat (destruct H as [<- | H]; [cbn; lia|]). contradiction.
Qed.

Lemma identifier_alone_not_recognized (i : jsstring) :
  length i = 11 -> extractYoutubeId i = None.
Proof.
  intros Hl. apply extractYoutubeId_unrecognized.
  apply Forall_forall. intros r Hr. unfold str_match.
  rewrite search_from_too_short; [reflexivity|].
  pose proof (@patterns_need_twenty r Hr). lia.
Qed.

Lemma dashboard_accepts_identifier (i : jsstring) :
  well_formed_id i -> Dashboard.extractYoutubeId i = Some i.
Proof.
  intros Hw. unfold Dashboard.extractYoutubeId, Dashboard.patterns.
  rewrite (trim_identifier Hw). destruct Hw as [Hl Hi].
  apply first_capture_at.
  - apply Forall_forall. intros r Hr. unfold str_match.
    rewrite search_from_too_short; [reflexivity|].
    pose proof (@patterns_need_twenty r Hr). lia.
  - unfold str_match.
    rewrite (@search_from_found _ 0 _ [] (Some i)); [reflexivity|].
    unfold match_at, Dashboard.bare_id.
    change (cat [Bol; Group (Rep id_char 11); Eol])
      with (Seq Bol (Seq (Group (Rep id_char 11)) Eol)).
    rewrite run_seq. cbn [run].
    rewrite <- Hl. rewrite <- (app_nil_r i) at 2.
    rewrite (take_class_app id_char i [] Hi).
    rewrite Nat.add_0_l, Nat.sub_0_r, firstn_all. reflexivity.
  - intros ->. discriminate Hl.
Qed.

(** X14. The library page accepts a bare eleven-character identifier as a
    YouTube URL and stores it as it is, but the player page does not
    recognize it: for a video stored that way a scan never sends a
    request and always ends with the capture toast, whatever the DOM
    holds. *)
Theorem bare_identifier_is_stored_but_not_scanned
        (i title uid row_id : jsstring) (dom : Dom) (s : State) :
  well_formed_id i ->
  title <> [] ->
  let row :=
    {| Dashboard.user_id := uid;
       Dashboard.title := title;
       Dashboard.video_url := i;
       Dashboard.thumbnail_url :=
         js "https://img.youtube.com/vi/" ++ i ++ js "/maxresdefault.jpg";
       Dashboard.source_type := js "youtube" |} in
  Dashboard.handleYoutubeUpload i title (Some uid) None
  = (Dashboard.VideoAdded, [row])
  /\ extractYoutubeId (video_url (stored_video row_id row)) = None
  /\ (video s = Some (stored_video row_id row) ->
      sent (scanProducts dom s) = sent s
      /\ in_flight (scanProducts dom s) = in_flight s
      /\ isScanning (scanProducts dom s) = isScanning s
      /\ toasts (scanProducts dom s) = capture_toast :: toasts s).
Proof.
  intros Hw Ht row.
  assert (Hn : extractYoutubeId i = None)
    by (apply identifier_alone_not_recognized; apply Hw).
  split; [|split].
  - unfold Dashboard.handleYoutubeUpload.
    rewrite (dashboard_accepts_identifier Hw).
    destruct i as [|c i]; [destruct Hw; discriminate|].
    destruct title as [|t title]; [now elim Ht|]. reflexivity.
  - exact Hn.
  - intros Hv. unfold scanProducts. rewrite Hv.
    change (is_youtube (Some (stored_video row_id row))) with true.
    change (video_url (stored_video row_id row)) with i. rewrite Hn.
    destruct (true && ytPlayerRef dom)%bool; [|destruct (videoRef dom)];
      repeat split.
Qed.

Lemma bare_identifier_is_stored_but_not_scanned_witness :
  Dashboard.extractYoutubeId (js "dQw4w9WgXcQ") = Some (js "dQw4w9WgXcQ")
  /\ extractYoutubeId (js "dQw4w9WgXcQ") = None.
Proof.
  assert (Hw : well_formed_id (js "dQw4w9WgXcQ")) by (split; reflexivity).
  assert (Ht : js "Clip" <> []) by discriminate.
  split; [reflexivity|].
  exact (proj1 (proj2 (@bare_identifier_is_stored_but_not_scanned
                         (js "dQw4w9WgXcQ") (js "Clip") (js "u1") (js "r1")
                         decoded_dom (initial (js "r1")) Hw Ht))).
Defined.

Lemma first_capture_app (ps qs : list re) (url : jsstring) :
  first_capture (ps ++ qs) url
  = match first_capture ps url with
    | Some i => Some i
    | None => first_capture qs url
    end.
Proof.
  induction ps as [|p ps IH]; [reflexivity|]. cbn [app first_capture].
  destruct (str_match url p) as [[[|c g]|]|]; try exact IH. reflexivity.
Qed.

Lemma dashboard_agrees_with_player (url i : jsstring) :
  extractYoutubeId (trim url) = Some i ->
  Dashboard.extractYoutubeId url = Some i.
Proof.
  intros H. unfold Dashboard.extractYoutubeId, Dashboard.patterns.
  rewrite first_capture_app. unfold extractYoutubeId in H. now rewrite H.
Qed.

(** X15. Whatever is typed into the form, the library page inserts at most
    one row, and only for a signed-in user with a non-empty title and a
    URL it finds an identifier in; the row keeps the URL as typed.  When
    the typed URL has no surrounding white space and the player page finds
    an identifier in it, the thumbnail stored with the row is exactly the
    image a scan of that video sends to the edge function. *)
Theorem library_thumbnail_is_scanned_image
        (url title : jsstring) (user insert_error : option jsstring) :
  (forall row, In row (snd (Dashboard.handleYoutubeUpload url title user insert_error)) ->
      snd (Dashboard.handleYoutubeUpload url title user insert_error) = [row]
      /\ url <> [] /\ title <> []
      /\ user = Some (Dashboard.user_id row)
      /\ Dashboard.title row = title
      /\ Dashboard.video_url row = url
      /\ Dashboard.source_type row = js "youtube"
      /\ exists i, Dashboard.extractYoutubeId url = Some i
                   /\ Dashboard.thumbnail_url row = getYoutubeThumbnail i)
  /\ (fst (Dashboard.handleYoutubeUpload url title user insert_error)
      = Dashboard.VideoAdded ->
      insert_error = None
      /\ length (snd (Dashboard.handleYoutubeUpload url title user insert_error)) = 1)
  /\ (forall i row row_id dom s,
         trim url = url ->
         extractYoutubeId url = Some i ->
         In row (snd (Dashboard.handleYoutubeUpload url title user insert_error)) ->
         video s = Some (stored_video row_id row) ->
         map imageData (sent (scanProducts dom s))
         = Dashboard.thumbnail_url row :: map imageData (sent s)).
Proof.
  assert (A : forall row,
             In row (snd (Dashboard.handleYoutubeUpload url title user insert_error)) ->
             snd (Dashboard.handleYoutubeUpload url title user insert_error) = [row]
             /\ url <> [] /\ title <> []
             /\ user = Some (Dashboard.user_id row)
             /\ Dashboard.title row = title
             /\ Dashboard.video_url row = url
             /\ Dashboard.source_type row = js "youtube"
             /\ exists i, Dashboard.extractYoutubeId url = Some i
                          /\ Dashboard.thumbnail_url row = getYoutubeThumbnail i).
  { unfold Dashboard.handleYoutubeUpload.
    destruct url as [|u url]; [intros ? []|].
    destruct title as [|t title]; [intros ? []|].
    destruct user as [uid|]; [|intros ? []].
    destruct (Dashboard.extractYoutubeId (u :: url)) as [i|]; [|intros ? []].
    destruct insert_error; cbn [snd]; intros row [<- | []];
      (repeat split; try discriminate; now exists i). }
  split; [exact A|]. split.
  - unfold Dashboard.handleYoutubeUpload.
    destruct url as [|u url]; [discriminate|].
    destruct title as [|t title]; [discriminate|].
    destruct user as [uid|]; [|discriminate].
    destruct (Dashboard.extractYoutubeId (u :: url)); [|discriminate].
    destruct insert_error; [discriminate|]. now split.
  - intros i row row_id dom s Ht Hi Hin Hv.
    destruct (A row Hin) as (_ & _ & _ & _ & _ & Hu & Hs & (j & Hj & Hth)).
    assert (Hd : Dashboard.extractYoutubeId url = Some i)
      by (apply dashboard_agrees_with_player; now rewrite Ht).
    assert (j = i) by congruence. subst j. rewrite Hth.
    unfold scanProducts. rewrite Hv.
    assert (Hy : is_youtube (Some (stored_video row_id row)) = true).
    { rewrite is_youtube_some. unfold stored_video. cbn [source_type].
      now rewrite Hs. }
    rewrite Hy.
    change (video_url (stored_video row_id row)) with (Dashboard.video_url row).
    rewrite Hu, Hi.
    unfold getYoutubeThumbnail.
    change (js "https://img.youtube.com/vi/" ++ i ++ js "/maxresdefault.jpg")
      with (104%N :: js "ttps://img.youtube.com/vi/" ++ i
                 ++ js "/maxresdefault.jpg").
    cbv iota beta.
    destruct (true && ytPlayerRef dom)%bool; [|destruct (videoRef dom)];
      reflexivity.
Qed.

Lemma library_thumbnail_is_scanned_image_witness :
  map imageData
      (sent (scanProducts undecoded_dom
               (step (initial (js "r1"))
                     (VideoFetched (stored_video (js "r1") clip_row)))))
  = [js "https://img.youtube.com/vi/dQw4w9WgXcQ/maxresdefault.jpg"].
Proof.
  exact (proj2 (proj2 (@library_thumbnail_is_scanned_image
                         (js "https://youtu.be/dQw4w9WgXcQ") (js "Clip")
                         (Some (js "u1")) None))
               (js "dQw4w9WgXcQ") clip_row (js "r1") undecoded_dom
               (step (initial (js "r1"))
                     (VideoFetched (stored_video (js "r1") clip_row)))
               eq_refl eq_refl (or_introl eq_refl) eq_refl).
Defined.

(** ** Product identifiers *)

Lemma js_injective (a b : string) : js a = js b -> a = b.
Proof.
  unfold js. intros H.
  rewrite <- (string_of_list_ascii_of_string a),
          <- (string_of_list_ascii_of_string b).
  f_equal. revert H.
  generalize (list_ascii_of_string a), (list_ascii_of_string b).
  induction l as [|x l IH]; intros [|y l'] H; try discriminate; [reflexivity|].
  cbn in H. injection H as Hx Hl. f_equal; [|now apply IH].
  rewrite <- (ascii_N_embedding x), <- (ascii_N_embedding y). now rewrite Hx.
Qed.

Lemma decimal_injective (a b : N) : decimal a = decimal b -> a = b.
Proof.
  unfold decimal. intros H. apply js_injective in H.
  apply DecimalN.Unsigned.to_uint_inj.
  pose proof (NilEmpty.usu (N.to_uint a)) as Ha.
  pose proof (NilEmpty.usu (N.to_uint b)) as Hb.
  rewrite H in Ha. congruence.
Qed.

Lemma decimal_digits (n : N) : forallb is_digit (decimal n) = true.
Proof.
  unfold decimal. induction (N.to_uint n) as [|d IH|d IH|d IH|d IH|d IH|d IH|d IH|d IH|d IH|d IH];
    [reflexivity|..]; cbn [NilEmpty.string_of_uint]; exact IH.
Qed.

Lemma split_at_last_dash (a a' b b' : jsstring) :
  forallb is_digit b = true -> forallb is_digit b' = true ->
  a ++ 45%N :: b = a' ++ 45%N :: b' -> b = b'.
Proof.
  intros Hb Hb'. revert a'.
  assert (D : forall x y : jsstring,
             forallb is_digit x = true -> x <> y ++ 45%N :: b').
  { intros x y Hx ->. rewrite forallb_app in Hx.
    apply andb_true_iff in Hx as [_ Hx]. discriminate Hx. }
  assert (D' : forall x y : jsstring,
             forallb is_digit x = true -> x <> y ++ 45%N :: b).
  { intros x y Hx ->. rewrite forallb_app in Hx.
    apply andb_true_iff in Hx as [_ Hx]. discriminate Hx. }
  induction a as [|c a IH]; intros [|c' a'] H; cbn [app] in H.
  - now injection H.
  - injection H as _ H. now elim (D b a' Hb).
  - injection H as _ H. symmetry in H. now elim (D' b' a Hb').
  - injection H as _ H. now apply (IH a').
Qed.

Lemma product_id_index now random (i j : nat) (p q : Product) :
  product_id (place now random i p) = product_id (place now random j q) ->
  i = j.
Proof.
  cbn [place product_id]. intros H.
  apply (@split_at_last_dash _ _ (decimal (N.of_nat i)) (decimal (N.of_nat j)))
    in H; try apply decimal_digits.
  apply decimal_injective in H. lia.
Qed.

Lemma in_map_from now random (products : list Product) :
  forall start sp,
    In sp (map_from now random start products) ->
    exists j p, start <= j /\ sp = place now random j p.
Proof.
  induction products as [|p rest IH]; intros start sp H; [contradiction|].
  cbn [map_from] in H. destruct H as [<- | H].
  - exists start, p. split; [lia | reflexivity].
  - destruct (IH _ _ H) as (j & q & Hj & ->). exists j, q. split; [lia | reflexivity].
Qed.

(** X16. The identifiers given to the products of one scan result are
    pairwise distinct, whatever the clock returns, even when it returns
    the same instant for all of them: the index that ends each identifier
    tells them apart. *)
Theorem product_ids_distinct
        (now : nat -> N) (random : nat -> Q) (products : list Product) :
  NoDup (map product_id (productsWithPositions now random products)).
Proof.
  unfold productsWithPositions. generalize 0.
  induction products as [|p rest IH]; intros start; cbn [map_from map];
    constructor.
  - intros H. apply in_map_iff in H as (sp & Hid & Hin).
    destruct (in_map_from _ _ _ _ _ Hin) as (j & q & Hj & ->).
    apply product_id_index in Hid. lia.
  - apply IH.
Qed.

(** ** Distinct overlays *)



(** ** The time display *)





(** ** Uploaded files *)

Lemma run_star_to_end (p : N -> bool) (cap : option jsstring) :
  forall (s : jsstring) (pos : nat),
    run (Star p) pos cap s
        (fun pos' cap' s' =>
           run Eol pos' cap' s' (fun _ cap'' rest => Some (cap'', rest)))
    = if forallb p s then Some (cap, []) else None.
Proof.
  induction s as [|c s IH]; intros pos; [reflexivity|].
  rewrite run_star_cons, IH. cbn [forallb run].
  destruct (p c); [|reflexivity]. now destruct (forallb p s).
Qed.

Lemma run_lit_one (a : N) pos cap (s : jsstring) k :
  run (Lit [a]) pos cap s k
  = match s with
    | c :: e => if N.eqb a c then k (pos + 1) cap e else None
    | [] => None
    end.
Proof. destruct s as [|c e]; [reflexivity|]. cbn. now destruct (N.eqb a c). Qed.

Lemma run_rep_one (p : N -> bool) pos cap (s : jsstring) k :
  run (Rep p 1) pos cap s k
  = match s with
    | c :: e => if p c then k (pos + 1) cap e else None
    | [] => None
    end.
Proof. destruct s as [|c e]; [reflexivity|]. cbn. now destruct (p c). Qed.

Lemma match_at_extension (pos : nat) (s : jsstring) :
  match_at Dashboard.extension_pattern pos s
  = match s with
    | c :: e =>
        if (N.eqb 46 c && negb (match e with [] => true | _ => false end)
            && forallb Dashboard.extension_char e)%bool
        then Some (None, [])
        else None
    | [] => None
    end.
Proof.
  unfold match_at, Dashboard.extension_pattern, Plus.
  change (cat [Lit (js "."); Seq (Rep Dashboard.extension_char 1)
                                 (Star Dashboard.extension_char); Eol])
    with (Seq (Lit [46%N])
              (Seq (Seq (Rep Dashboard.extension_char 1)
                        (Star Dashboard.extension_char)) Eol)).
  rewrite run_seq, run_lit_one.
  destruct s as [|c e]; [reflexivity|].
  destruct (N.eqb 46 c); [|reflexivity]. cbn [andb].
  rewrite run_seq, run_seq, run_rep_one.
  destruct e as [|d e]; [reflexivity|]. cbn [negb andb forallb].
  destruct (Dashboard.extension_char d); [|reflexivity].
  rewrite run_star_to_end. cbn [andb]. reflexivity.
Qed.

Lemma search_extension (base ext : jsstring) :
  ext <> [] -> forallb Dashboard.extension_char ext = true ->
  forall pos,
    search_from Dashboard.extension_pattern pos (base ++ 46%N :: ext)
    = Some (pos + length base, None, []).
Proof.
  intros He Hx. induction base as [|c base IH]; intros pos.
  - rewrite Nat.add_0_r. apply search_from_found.
    rewrite match_at_extension. cbn [app N.eqb Pos.eqb andb].
    rewrite Hx. destruct ext; [now elim He | reflexivity].
  - cbn [app]. rewrite search_from_skip.
    + rewrite IH. cbn [length]. do 3 f_equal. lia.
    + rewrite match_at_extension.
      destruct (N.eqb 46 c); [|reflexivity]. cbn [andb].
      rewrite forallb_app. cbn [forallb].
      change (Dashboard.extension_char 46) with false.
      now rewrite andb_false_r, andb_false_r.
Qed.

Lemma after_last_point_plain (ext : jsstring) :
  forallb (fun c => negb (N.eqb c 46)) ext = true ->
  forall segment,
    Dashboard.after_last_point segment ext = rev segment ++ ext.
Proof.
  induction ext as [|c ext IH]; intros H segment; cbn [Dashboard.after_last_point].
  - now rewrite app_nil_r.
  - cbn [forallb] in H. apply andb_true_iff in H as [Hc H].
    apply negb_true_iff in Hc. rewrite Hc, (IH H). cbn [rev].
    now rewrite <- app_assoc.
Qed.

Lemma after_last_point_app (base ext : jsstring) :
  forallb (fun c => negb (N.eqb c 46)) ext = true ->
  forall segment,
    Dashboard.after_last_point segment (base ++ 46%N :: ext) = ext.
Proof.
  intros H. induction base as [|c base IH]; intros segment;
    cbn [app Dashboard.after_last_point].
  - cbn [N.eqb Pos.eqb]. now rewrite (after_last_point_plain _ H).
  - destruct (N.eqb c 46); apply IH.
Qed.

Lemma extension_chars_have_no_point (ext : jsstring) :
  forallb Dashboard.extension_char ext = true ->
  forallb (fun c => negb (N.eqb c 46)) ext = true.
Proof.
  induction ext as [|c ext IH]; [reflexivity|]. cbn [forallb].
  intros H. apply andb_true_iff in H as [Hc H]. rewrite (IH H), andb_true_r.
  unfold Dashboard.extension_char in Hc.
  destruct (N.eqb c 46); [|reflexivity]. now rewrite orb_true_r in Hc.
Qed.

(** X19. For a file name that ends in a point and an extension (at least
    one character, none of them a point or a slash), the title stored for
    the upload is the name without that extension, the extension kept for
    the storage object is that extension, and the two put the name back
    together.  A name without any point keeps its whole text as the title
    and, as the code has it, also as the extension. *)
Theorem upload_title_and_extension (base ext name : jsstring) :
  (ext <> [] -> forallb Dashboard.extension_char ext = true ->
   Dashboard.file_title (base ++ 46%N :: ext) = base
   /\ Dashboard.fileExt (base ++ 46%N :: ext) = ext
   /\ Dashboard.file_title (base ++ 46%N :: ext) ++ js "."
        ++ Dashboard.fileExt (base ++ 46%N :: ext)
      = base ++ 46%N :: ext)
  /\ (forallb (fun c => negb (N.eqb c 46)) name = true ->
      Dashboard.file_title name = name /\ Dashboard.fileExt name = name).
Proof.
  split.
  - intros He Hx.
    assert (T : Dashboard.file_title (base ++ 46%N :: ext) = base).
    { unfold Dashboard.file_title, replace_empty.
      rewrite (search_extension base He Hx). cbn [Nat.add].
      rewrite firstn_app, Nat.sub_diag, firstn_all. cbn [firstn].
      now rewrite !app_nil_r. }
    assert (E : Dashboard.fileExt (base ++ 46%N :: ext) = ext).
    { unfold Dashboard.fileExt. apply after_last_point_app.
      now apply extension_chars_have_no_point. }
    now rewrite T, E.
  - intros H. split.
    + unfold Dashboard.file_title, replace_empty.
      assert (S : forall pos,
                 search_from Dashboard.extension_pattern pos name = None).
      { induction name as [|c name IH]; intros pos; cbn [search_from];
          rewrite match_at_extension; [reflexivity|].
        cbn [forallb] in H. apply andb_true_iff in H as [Hc H].
        apply negb_true_iff in Hc. rewrite N.eqb_sym in Hc. rewrite Hc.
        cbn [andb]. now apply IH. }
      now rewrite S.
    + unfold Dashboard.fileExt. now rewrite (after_last_point_plain _ H).
Qed.

Lemma upload_title_and_extension_witness :
  Dashboard.file_title (js "holiday.2024.mp4") = js "holiday.2024"
  /\ Dashboard.fileExt (js "holiday.2024.mp4") = js "mp4".
Proof.
  assert (He : js "mp4" <> []) by discriminate.
  destruct (proj1 (upload_title_and_extension (js "holiday.2024") (js "mp4") [])
                  He eq_refl) as (T & E & _).
  split; [exact T | exact E].
Defined.

(** ** What the page shows *)

Lemma received_map_from now random (products : list Product) :
  forall start,
    map received (map_from now random start products) = products.
Proof.
  induction products as [|p rest IH]; intros start; [reflexivity|].
  cbn [map_from map place received]. now rewrite IH.
Qed.

(** X20. When the request of the scan in progress is answered with a
    non-empty product list, the page keeps exactly the products it
    received, in the order received and with their fields untouched, one
    overlay each, and announces their number, in the plural only when
    there is more than one. *)
Theorem page_shows_products_as_received
        (route : jsstring) (s : State) (p : Product) (ps : list Product)
        (now : nat -> N) (random : nat -> Q) :
  reachable route s ->
  isScanning s = true ->
  let s' := step s (Settled 0 (InvokeData (Some (p :: ps))) now random) in
  map received (scannedProducts s') = p :: ps
  /\ length (scannedProducts s') = S (length ps)
  /\ showProducts s' = true
  /\ session_status s' = succeeded
  /\ hd_error (toasts s')
     = Some {| toast_title := js "Products found!";
               description :=
                 js "Discovered " ++ decimal (N.of_nat (S (length ps)))
                    ++ js " shoppable item"
                    ++ (match ps with [] => [] | _ :: _ => js "s" end)
                    ++ js ".";
               variant := Default |}.
Proof.
  intros Hr Hs. pose proof (reachable_single_flight Hr) as H.
  unfold single_flight in H. rewrite Hs in H. destruct H as (Hl & _ & _).
  cbn zeta. cbn [step]. unfold settle.
  destruct (in_flight s) as [|rq l]; [discriminate|]. cbn [nth_error].
  cbn [scannedProducts showProducts toasts hd_error].
  unfold productsWithPositions. rewrite received_map_from.
  split; [reflexivity|]. split.
  - rewrite <- (length_map received), received_map_from. reflexivity.
  - split; [reflexivity|]. split; [reflexivity|].
    unfold found_toast. cbn [length]. destruct ps; reflexivity.
Qed.

Lemma page_shows_products_as_received_witness :
  map received
      (scannedProducts
         (step switched_while_scanning
               (Settled 0 (InvokeData (Some [bag; bag])) clock no_jitter)))
  = [bag; bag].
Proof.
  refine (proj1 (@page_shows_products_as_received (js "a")
                   switched_while_scanning bag [bag] clock no_jitter _ eq_refl)).
  unfold switched_while_scanning, run_events. cbn [fold_left].
  repeat apply reach_step. apply reach_initial.
Defined.
